(** * Urdu/English communicator: the session store and orchestrator of [App.tsx]

    A shallow embedding of the state handling of [src/App.tsx] together with
    the types of [types.ts] and the constants of [constants.ts].

    - A JavaScript string is a sequence of UTF-16 code units ([jsstring]);
      [text.length], [substring], [trim] and the Urdu range test all work on
      code units, as they do in the browser.
    - The React state of the [App] component, the browser storage, the
      console, the speech queue and the number of clock readings taken so
      far form one [World]; handlers are computations in a state and
      exception monad [M] over it.
    - [Date.now()] is the oracle [now]: its k-th call returns [now k].
    - A handler closes over the state of the render that created it. It is
      taken to be the handler of the latest render, so the captured values
      are read once, when the handler starts, and passed on; they are not
      read again after an [await].
    - A state update with an updater function is applied in the order of
      the calls; the handlers of two events never overlap, except that other
      handlers run while one is suspended at an [await].
    - The page itself (the markup, the class toggle for the dark mode,
      scrolling) is not part of the world; of the two persistence effects
      the writes to the storage are modelled. *)

From Stdlib Require Import ZArith String Ascii DecimalString DecimalPos DecimalZ
  Floats.SpecFloat.
From stdpp Require Import base option list gmap.

Open Scope Z_scope.
Set Warnings "-register-all".

(** ** JavaScript values *)

Abbreviation jsstring := (list N).

(** A string literal of the source, as code units. *)
Definition lit (s : string) : jsstring :=
  (λ a, N_of_ascii a) <$> list_ascii_of_string s.

(** [n.toString()] for an integral number below 10^21 in magnitude, where
    the result is the plain decimal numeral. *)
Definition toString (n : Z) : jsstring :=
  lit (NilZero.string_of_int (Z.to_int n)).

(** [s.substring(start, end)]: the arguments are swapped when out of order
    and clamped to the length. *)
Definition substring (start end_ : nat) (s : jsstring) : jsstring :=
  take (Nat.max start end_ - Nat.min start end_) (drop (Nat.min start end_) s).

(** WhiteSpace and LineTerminator code units, the ones [trim] strips. *)
Definition isWhiteSpace (c : N) : bool :=
  bool_decide (c ∈ [0x09; 0x0A; 0x0B; 0x0C; 0x0D; 0x20; 0xA0; 0x1680;
                     0x2028; 0x2029; 0x202F; 0x205F; 0x3000; 0xFEFF]%N)
  || ((0x2000 <=? c)%N && (c <=? 0x200A)%N).

Fixpoint trimStart (s : jsstring) : jsstring :=
  match s with
  | c :: s' => if isWhiteSpace c then trimStart s' else s
  | [] => []
  end.

Definition trimEnd (s : jsstring) : jsstring :=
  reverse (trimStart (reverse s)).

Definition trim (s : jsstring) : jsstring := trimEnd (trimStart s).

(** The test of the regular expression [[\u0600-\u06FF]]: some code unit
    lies in the Arabic block. *)
Definition hasUrduScript (s : jsstring) : bool :=
  existsb (λ c, (0x0600 <=? c)%N && (c <=? 0x06FF)%N) s.

(** A value as [JSON.parse] builds it. An object keeps its members in
    source order; a later member with the same key wins. *)
Inductive JSValue : Type :=
| JNull
| JBool (b : bool)
| JNum (x : spec_float)
| JStr (s : jsstring)
| JArr (items : list JSValue)
| JObj (members : list (jsstring * JSValue)).

(** An object at run time: its own enumerable properties. *)
Abbreviation JSObject := (gmap jsstring JSValue).

(** Truthiness of a value; [None] is [undefined]. *)
Definition truthy (v : option JSValue) : bool :=
  match v with
  | None | Some JNull => false
  | Some (JBool b) => b
  | Some (JNum (S754_zero _)) | Some (JNum S754_nan) => false
  | Some (JNum _) => true
  | Some (JStr s) => negb (bool_decide (s = []))
  | Some (JArr _) | Some (JObj _) => true
  end.

(** Index keys ["0"], ["1"], ... paired with the elements of a list. *)
Definition indexed {A} (f : A → JSValue) (l : list A) : list (jsstring * JSValue) :=
  imap (λ i x, (toString (Z.of_nat i), f x)) l.

(** The own enumerable properties that an object spread [{...v}] copies. *)
Definition ownProperties (v : JSValue) : JSObject :=
  match v with
  | JNull | JBool _ | JNum _ => ∅
  | JStr s => list_to_map (indexed (λ c, JStr [c]) s)
  | JArr items => list_to_map (indexed (λ x, x) items)
  | JObj members => list_to_map (reverse members)
  end.

(** [{...a, ...v}]: the properties of [v] override those of [a]. *)
Definition spread (a : JSObject) (v : JSValue) : JSObject :=
  ownProperties v ∪ a.

(** ** types.ts *)

Inductive Sender := USER | AI.

Global Instance Sender_eq_dec : EqDecision Sender.
Proof. solve_decision. Defined.

Module Message.
Record t := mk {
  id : jsstring;
  text : jsstring;
  originalText : option jsstring;
  sender : Sender;
  timestamp : Z;
}.
End Message.

Module ChatSession.
Record t := mk {
  id : jsstring;
  title : jsstring;
  messages : list Message.t;
  createdAt : Z;
  updatedAt : Z;
}.
End ChatSession.

(** ** constants.ts *)

Definition SETTINGS_STORAGE_KEY : jsstring := lit "urdu_eng_settings".

Definition DEFAULT_SETTINGS : JSObject :=
  list_to_map [
    (lit "darkMode", JBool false);
    (lit "voiceEnabled", JBool true);
    (lit "preferredVoice", JStr (lit "en-US"));
    (lit "animationsEnabled", JBool true) ].

(** ** App.tsx: state *)

Definition SESSIONS_STORAGE_KEY : jsstring := lit "urdu_eng_sessions".

Record World := mkWorld {
  sessions : list ChatSession.t;
  currentSessionId : jsstring;
  settings : JSObject;
  isSettingsOpen : bool;
  isHistoryOpen : bool;
  isLoading : bool;
  localStorage : gmap jsstring jsstring;
  spoken : list (jsstring * jsstring);
  console : list jsstring;
  ticks : nat;
}.

(** Field updates. *)
Definition with_sessions (v : list ChatSession.t) (w : World) : World :=
  mkWorld v (currentSessionId w) (settings w) (isSettingsOpen w)
    (isHistoryOpen w) (isLoading w) (localStorage w) (spoken w)
    (console w) (ticks w).

Definition with_currentSessionId (v : jsstring) (w : World) : World :=
  mkWorld (sessions w) v (settings w) (isSettingsOpen w)
    (isHistoryOpen w) (isLoading w) (localStorage w) (spoken w)
    (console w) (ticks w).

Definition with_settings (v : JSObject) (w : World) : World :=
  mkWorld (sessions w) (currentSessionId w) v (isSettingsOpen w)
    (isHistoryOpen w) (isLoading w) (localStorage w) (spoken w)
    (console w) (ticks w).

Definition with_isSettingsOpen (v : bool) (w : World) : World :=
  mkWorld (sessions w) (currentSessionId w) (settings w) v
    (isHistoryOpen w) (isLoading w) (localStorage w) (spoken w)
    (console w) (ticks w).

Definition with_isHistoryOpen (v : bool) (w : World) : World :=
  mkWorld (sessions w) (currentSessionId w) (settings w)
    (isSettingsOpen w) v (isLoading w) (localStorage w) (spoken w)
    (console w) (ticks w).

Definition with_isLoading (v : bool) (w : World) : World :=
  mkWorld (sessions w) (currentSessionId w) (settings w)
    (isSettingsOpen w) (isHistoryOpen w) v (localStorage w)
    (spoken w) (console w) (ticks w).

Definition with_localStorage (v : gmap jsstring jsstring) (w : World) : World :=
  mkWorld (sessions w) (currentSessionId w) (settings w)
    (isSettingsOpen w) (isHistoryOpen w) (isLoading w) v (spoken w)
    (console w) (ticks w).

Definition with_spoken (v : list (jsstring * jsstring)) (w : World) : World :=
  mkWorld (sessions w) (currentSessionId w) (settings w)
    (isSettingsOpen w) (isHistoryOpen w) (isLoading w)
    (localStorage w) v (console w) (ticks w).

Definition with_console (v : list jsstring) (w : World) : World :=
  mkWorld (sessions w) (currentSessionId w) (settings w)
    (isSettingsOpen w) (isHistoryOpen w) (isLoading w)
    (localStorage w) (spoken w) v (ticks w).

Definition with_ticks (v : nat) (w : World) : World :=
  mkWorld (sessions w) (currentSessionId w) (settings w)
    (isSettingsOpen w) (isHistoryOpen w) (isLoading w)
    (localStorage w) (spoken w) (console w) v.

(** ** Handlers as computations

    A computation ends normally with a value or abruptly with a thrown
    error, and leaves a world behind in both cases. *)

Inductive Completion (A : Type) : Type :=
| Normal (a : A)
| Throw (error : jsstring).
Arguments Normal {A} a.
Arguments Throw {A} error.

Definition M (A : Type) : Type := World → Completion A * World.

Global Instance M_ret : MRet M := λ A a w, (Normal a, w).

Global Instance M_bind : MBind M := λ A B f m w,
  match m w with
  | (Normal a, w') => f a w'
  | (Throw e, w') => (Throw e, w')
  end.

Definition get {A} (field : World → A) : M A := λ w, (Normal (field w), w).

Definition modify (f : World → World) : M unit := λ w, (Normal tt, f w).

Definition throw {A} (e : jsstring) : M A := λ w, (Throw e, w).

(** [try { body } catch (e) { handler e } finally { final }]. The result
    is that of [body], or of [handler] when [body] throws, unless [final]
    itself throws. *)
Definition try_catch_finally {A} (body : M A) (handler : jsstring → M A)
    (final : M unit) : M A := λ w,
  let '(r, w1) :=
    match body w with
    | (Normal a, w') => (Normal a, w')
    | (Throw e, w') => handler e w'
    end in
  match final w1 with
  | (Normal _, w2) => (r, w2)
  | (Throw e, w2) => (Throw e, w2)
  end.

(** [try { body } catch (e) { handler e }] *)
Definition try_catch {A} (body : M A) (handler : jsstring → M A) : M A :=
  try_catch_finally body handler (mret tt).

(** [list.map(f)] with a callback that has effects. *)
Fixpoint mapM {A B} (f : A → M B) (l : list A) : M (list B) :=
  match l with
  | [] => mret []
  | x :: l' => y ← f x; ys ← mapM f l'; mret (y :: ys)
  end.

(** The state setters of [useState]. *)
Definition setSessions (v : list ChatSession.t) : M unit := modify (with_sessions v).
Definition setCurrentSessionId (v : jsstring) : M unit := modify (with_currentSessionId v).
Definition setSettings (v : JSObject) : M unit := modify (with_settings v).
Definition setIsSettingsOpen (v : bool) : M unit := modify (with_isSettingsOpen v).
Definition setIsHistoryOpen (v : bool) : M unit := modify (with_isHistoryOpen v).
Definition setIsLoading (v : bool) : M unit := modify (with_isLoading v).

(** Browser services. *)
Definition localStorage_getItem (key : jsstring) : M (option jsstring) :=
  get (λ w, localStorage w !! key).

Definition localStorage_removeItem (key : jsstring) : M unit :=
  modify (λ w, with_localStorage (delete key (localStorage w)) w).

Definition console_error (e : jsstring) : M unit :=
  modify (λ w, with_console (console w ++ [e]) w).

(** [speak] of the [useSpeech] hook: the utterance is queued. *)
Definition speak (text lang : jsstring) : M unit :=
  modify (λ w, with_spoken (spoken w ++ [(text, lang)]) w).

(** The state left by a computation, and its completion. *)
Definition exec {A} (m : M A) (w : World) : World := snd (m w).
Definition result {A} (m : M A) (w : World) : Completion A := fst (m w).

Section App.

(** [now k] is what the k-th call of [Date.now()] returns. *)
Variable now : nat → Z.

(** [JSON.parse], a service of the platform: the value, or the SyntaxError
    thrown. [JSON_parse_sessions] is [JSON.parse] at the type the code gives
    to the stored sessions, [ChatSession[]]; [None] is a falsy result such
    as [null]. *)
Variable JSON_parse : jsstring → Completion JSValue.
Variable JSON_parse_sessions : jsstring → Completion (option (list ChatSession.t)).

Definition Date_now : M Z :=
  λ w, (Normal (now (ticks w)), with_ticks (S (ticks w)) w).

(** ** Session store *)

(** [createNewSession], lines 78-89. *)
Definition createNewSession : M unit :=
  t ← Date_now;
  let newId := toString t in
  created ← Date_now;
  updated ← Date_now;
  let newSession :=
    ChatSession.mk newId (lit "New Conversation") [] created updated in
  prev ← get sessions;
  setSessions (newSession :: prev);;
  setCurrentSessionId newId.

(** The callback that [addMessageToCurrentSession] maps over the sessions,
    lines 98-122. [currentSessionId] is the value the handler closed over. *)
Definition updateSession (currentSessionId : jsstring) (text : jsstring)
    (sender : Sender) (originalText : option jsstring)
    (session : ChatSession.t) : M ChatSession.t :=
  if bool_decide (ChatSession.id session = currentSessionId) then
    t ← Date_now;
    stamp ← Date_now;
    let newMessage := Message.mk (toString t) text originalText sender stamp in
    let updatedMessages := ChatSession.messages session ++ [newMessage] in
    let newTitle :=
      if bool_decide (length (ChatSession.messages session) = 0%nat)
         && bool_decide (sender = USER)
      then if bool_decide (30 < length text)%nat
           then substring 0 30 text ++ lit "..."
           else text
      else ChatSession.title session in
    updated ← Date_now;
    mret (ChatSession.mk (ChatSession.id session) newTitle updatedMessages
            (ChatSession.createdAt session) updated)
  else mret session.

(** [addMessageToCurrentSession], lines 97-123. *)
Definition addMessageToCurrentSession (currentSessionId : jsstring)
    (text : jsstring) (sender : Sender) (originalText : option jsstring)
    : M unit :=
  prev ← get sessions;
  next ← mapM (updateSession currentSessionId text sender originalText) prev;
  setSessions next.

(** [deleteSession], lines 147-170. [window_confirm] is the answer of the
    user to the dialog. *)
Definition deleteSession (window_confirm : jsstring → bool) (id : jsstring)
    : M unit :=
  currentSessionId ← get currentSessionId;
  if window_confirm (lit "Delete this conversation?") then
    prev ← get sessions;
    let remaining := filter (λ s, ChatSession.id s ≠ id) prev in
    if bool_decide (currentSessionId = id) then
      match remaining with
      | first :: _ =>
          setCurrentSessionId (ChatSession.id first);;
          setSessions remaining
      | [] =>
          t ← Date_now;
          let newId := toString t in
          created ← Date_now;
          updated ← Date_now;
          let empty :=
            [ChatSession.mk newId (lit "New Conversation") [] created updated] in
          setCurrentSessionId newId;;
          setSessions empty
      end
    else setSessions remaining
  else mret tt.

(** [clearHistory], lines 172-179. *)
Definition clearHistory (window_confirm : jsstring → bool) : M unit :=
  if window_confirm (lit "Clear ALL chat history?") then
    localStorage_removeItem SESSIONS_STORAGE_KEY;;
    setSessions [];;
    createNewSession;;
    setIsSettingsOpen false
  else mret tt.

(** [onSelectSession], lines 196-199. *)
Definition onSelectSession (id : jsstring) : M unit :=
  setCurrentSessionId id;;
  setIsHistoryOpen false.

(** [updateSettings], line 251. *)
Definition updateSettings (ns : JSObject) : M unit :=
  prev ← get settings;
  setSettings (ns ∪ prev).

(** ** Orchestrator *)

(** What the translation service answers to one request. *)
Inductive Reply := Resolved (translated : jsstring) | Rejected (error : jsstring).

(** [await translateText(text)]: the handler is suspended, the handlers of
    the events that arrive in the meantime run ([meanwhile]), and the
    handler resumes with the translation or with the rejection thrown. *)
Definition await_translateText (translateText : jsstring → Reply)
    (meanwhile : M unit) (text : jsstring) : M jsstring := λ w,
  let w' := exec meanwhile w in
  match translateText text with
  | Resolved translated => (Normal translated, w')
  | Rejected e => (Throw e, w')
  end.

(** [handleSendMessage], lines 125-145. [addMessageToCurrentSession] and
    [settings] are those of the render in which the handler was created. *)
Definition handleSendMessage (translateText : jsstring → Reply)
    (meanwhile : M unit) (text : jsstring) : M unit :=
  currentSessionId ← get currentSessionId;
  settings ← get settings;
  if bool_decide (trim text = []) then mret tt
  else
    addMessageToCurrentSession currentSessionId text USER None;;
    setIsLoading true;;
    try_catch_finally
      (translated ← await_translateText translateText meanwhile text;
       addMessageToCurrentSession currentSessionId translated AI (Some text);;
       if truthy (settings !! lit "voiceEnabled") then
         let isUrdu := hasUrduScript translated in
         speak translated (if isUrdu then lit "ur-PK" else lit "en-US")
       else mret tt)
      (λ error,
         console_error error;;
         addMessageToCurrentSession currentSessionId
           (lit "Error processing request. Please check your internet connection.")
           AI None)
      (setIsLoading false).

(** ** Initial data load, lines 31-58 *)

(** The world in which the component mounts: the [useState] defaults. *)
Definition initialWorld (storage : gmap jsstring jsstring) : World :=
  mkWorld [] [] DEFAULT_SETTINGS false false false storage [] [] 0.

Definition complete {A} (c : Completion A) : M A := λ w, (c, w).

Definition loadSettings : M unit :=
  savedSettings ← localStorage_getItem SETTINGS_STORAGE_KEY;
  match savedSettings with
  | Some ((_ :: _) as saved) =>
      try_catch
        (parsed ← complete (JSON_parse saved);
         setSettings (spread DEFAULT_SETTINGS parsed))
        (λ e, console_error e)
  | _ => mret tt
  end.

Definition loadSessions : M unit :=
  savedSessions ← localStorage_getItem SESSIONS_STORAGE_KEY;
  match savedSessions with
  | Some ((_ :: _) as saved) =>
      try_catch
        (parsed ← complete (JSON_parse_sessions saved);
         match parsed with
         | Some ((first :: _) as parsed) =>
             setSessions parsed;;
             setCurrentSessionId (ChatSession.id first)
         | _ => createNewSession
         end)
        (λ e, console_error e;; createNewSession)
  | _ => createNewSession
  end.

Definition initialDataLoad : M unit := loadSettings;; loadSessions.

(** ** Sequences of session operations *)

Inductive StoreOp :=
| CreateSession
| DeleteSession (id : jsstring) (confirmed : bool)
| ClearAll (confirmed : bool).

Definition perform (op : StoreOp) : M unit :=
  match op with
  | CreateSession => createNewSession
  | DeleteSession id confirmed => deleteSession (λ _, confirmed) id
  | ClearAll confirmed => clearHistory (λ _, confirmed)
  end.

Fixpoint performAll (ops : list StoreOp) : M unit :=
  match ops with
  | [] => mret tt
  | op :: ops' => perform op;; performAll ops'
  end.

(** ** Vocabulary of the statements *)

(** [appended cid text sender orig s s']: [s'] is what the callback of
    [addMessageToCurrentSession] returns for [s]. *)
Definition appended (cid text : jsstring) (sender : Sender)
    (orig : option jsstring) (s s' : ChatSession.t) : Prop :=
  if decide (ChatSession.id s = cid) then
    ∃ m updated,
      Message.text m = text ∧ Message.sender m = sender ∧
      Message.originalText m = orig ∧
      s' = ChatSession.mk (ChatSession.id s)
             (if bool_decide (ChatSession.messages s = []) && bool_decide (sender = USER)
              then if bool_decide (length text ≤ 30)%nat then text
                   else take 30 text ++ lit "..."
              else ChatSession.title s)
             (ChatSession.messages s ++ [m]) (ChatSession.createdAt s) updated
  else s' = s.

(** The session that is created when nothing else is left, from the three
    clock readings taken at tick [k]. *)
Definition freshSession (k : nat) : ChatSession.t :=
  ChatSession.mk (toString (now k)) (lit "New Conversation") []
    (now (S k)) (now (S (S k))).

(** The current id names a session of the collection. *)
Definition currentIsListed (w : World) : Prop :=
  ∃ s, s ∈ sessions w ∧ ChatSession.id s = currentSessionId w.

(** The text of the message shown when the translation fails. *)
Definition fallbackText : jsstring :=
  lit "Error processing request. Please check your internet connection.".

(** The state in which [handleSendMessage] is suspended at its [await]. *)
Definition atAwait (text : jsstring) (w : World) : World :=
  exec (addMessageToCurrentSession (currentSessionId w) text USER None;;
        setIsLoading true) w.

End App.

(** ** The rest of the component *)

Section Rest.

Variable now : nat → Z.

(** [JSON.stringify], a service of the platform, at the two types the
    component writes to the storage. *)
Variable JSON_stringify_settings : JSObject → jsstring.
Variable JSON_stringify_sessions : list ChatSession.t → jsstring.

(** The computed values of lines 26-28: the session shown and its
    messages. [find] returns the first session that carries the id. *)
Definition currentSession (w : World) : option ChatSession.t :=
  List.find (λ s, bool_decide (ChatSession.id s = currentSessionId w)) (sessions w).

Definition messages (w : World) : list Message.t :=
  match currentSession w with
  | Some s => ChatSession.messages s
  | None => []
  end.

Definition localStorage_setItem (key value : jsstring) : M unit :=
  modify (λ w, with_localStorage (<[key := value]> (localStorage w)) w).

(** The persistence effects, lines 60-76. The class toggle on the document
    element and the scrolling act on the page only, of which the world
    keeps nothing. *)
Definition persistSettings : M unit :=
  current ← get settings;
  localStorage_setItem SETTINGS_STORAGE_KEY (JSON_stringify_settings current).

Definition persistSessions : M unit :=
  current ← get sessions;
  if bool_decide (0 ≤ length current)%nat then
    localStorage_setItem SESSIONS_STORAGE_KEY (JSON_stringify_sessions current)
  else mret tt.

(** What the handlers do to the collection, step by step. A send is an
    [Append] when it starts and another one when its translation arrives or
    fails, each with the id the send closed over; the steps of other
    handlers may fall in between. *)
Inductive Action :=
| NewChat
| Delete (id : jsstring) (confirmed : bool)
| ClearHistory (confirmed : bool)
| Select (id : jsstring)
| Append (currentSessionId text : jsstring) (sender : Sender)
    (originalText : option jsstring).

Definition act (a : Action) : M unit :=
  match a with
  | NewChat => createNewSession now
  | Delete id confirmed => deleteSession now (λ _, confirmed) id
  | ClearHistory confirmed => clearHistory now (λ _, confirmed)
  | Select id => onSelectSession id
  | Append cid text sender orig => addMessageToCurrentSession now cid text sender orig
  end.

Fixpoint actAll (actions : list Action) : M unit :=
  match actions with
  | [] => mret tt
  | a :: actions' => act a;; actAll actions'
  end.

(** The history lists the sessions of the collection: a selection names
    one of them. *)
Definition selectable (a : Action) (w : World) : Prop :=
  match a with
  | Select id => ∃ s, s ∈ sessions w ∧ ChatSession.id s = id
  | _ => True
  end.

Fixpoint allSelectable (actions : list Action) (w : World) : Prop :=
  match actions with
  | [] => True
  | a :: actions' => selectable a w ∧ allSelectable actions' (exec (act a) w)
  end.

(** What a send leaves as it is: the ids of the sessions, in order, the
    current id, the settings, the storage and the two dialog flags. *)
Definition shape (w : World) :
    list jsstring * jsstring * JSObject * gmap jsstring jsstring * bool * bool :=
  (ChatSession.id <$> sessions w, currentSessionId w, settings w, localStorage w,
   isSettingsOpen w, isHistoryOpen w).

(** The settings dialog used several times in a row. *)
Fixpoint updateSettingsAll (changes : list JSObject) : M unit :=
  match changes with
  | [] => mret tt
  | ns :: changes' => updateSettings ns;; updateSettingsAll changes'
  end.

(** A session without messages carries the title it was created with. *)
Definition untitledWhenEmpty (s : ChatSession.t) : Prop :=
  ChatSession.messages s = [] → ChatSession.title s = lit "New Conversation".

(** The ids are pairwise different, and each is the decimal numeral of a
    clock reading taken before tick [n]. *)
Definition stamped (n : nat) (ids : list jsstring) : Prop :=
  NoDup ids ∧ Forall (λ i, ∃ k, (k < n)%nat ∧ i = toString (now k)) ids.

(** The same of the ids of the sessions and, in each session, of the ids of
    its messages. *)
Definition stampedSessions (n : nat) (l : list ChatSession.t) : Prop :=
  stamped n (ChatSession.id <$> l)
  ∧ Forall (λ s, stamped n (Message.id <$> ChatSession.messages s)) l.

(** [appendedAt cid text sender orig lo hi s s']: [s'] is what the callback
    of [addMessageToCurrentSession] returns for [s] when it runs between
    the ticks [lo] and [hi]: the id and the time stamp of the new message
    and the update time of the session are three consecutive readings. *)
Definition appendedAt (cid text : jsstring) (sender : Sender)
    (orig : option jsstring) (lo hi : nat) (s s' : ChatSession.t) : Prop :=
  if decide (ChatSession.id s = cid) then
    ∃ k, (lo ≤ k ∧ k + 2 < hi)%nat ∧
      s' = ChatSession.mk (ChatSession.id s)
             (if bool_decide (ChatSession.messages s = []) && bool_decide (sender = USER)
              then if bool_decide (length text ≤ 30)%nat then text
                   else take 30 text ++ lit "..."
              else ChatSession.title s)
             (ChatSession.messages s
                ++ [Message.mk (toString (now k)) text orig sender (now (S k))])
             (ChatSession.createdAt s) (now (S (S k)))
  else s' = s.

(** The clock never returns the same reading twice. *)
Definition neverRepeats : Prop := ∀ i j, now i = now j → i = j.

End Rest.

(** ** Sample inputs *)

(** A clock that advances by one millisecond at every reading, and one
    whose first three readings, those of the mount, are followed some seconds
    later by readings that all fall in one millisecond. *)
Definition tickingClock : nat → Z := λ k, 1700000000000 + Z.of_nat k.
Definition sameMillisecond : nat → Z := λ k,
  if (k <? 3)%nat then 1700000000000 else 1700000004321.

(** The component after a first mount on an empty storage. *)
Definition mounted (now : nat → Z) : World :=
  exec (createNewSession now) (initialWorld ∅).

Definition sampleSession : ChatSession.t :=
  ChatSession.mk (lit "1700000000000") (lit "New Conversation") []
    1700000000001 1700000000002.

Definition olderSession : ChatSession.t :=
  ChatSession.mk (lit "1600000000000") (lit "salam")
    [Message.mk (lit "1600000000003") (lit "salam") None USER 1600000000004]
    1600000000001 1600000000005.

(** A current session followed by an older one. *)
Definition twoSessions : World :=
  with_sessions [sampleSession; olderSession] (mounted tickingClock).

Definition newerSession : ChatSession.t :=
  ChatSession.mk (lit "1800000000000") (lit "New Conversation") []
    1800000000001 1800000000002.

(** The current session between a newer and an older one, as after a
    selection in the history. *)
Definition middleCurrent : World :=
  with_sessions [newerSession; sampleSession; olderSession] (mounted tickingClock).

(** The stored text of an object with the one member [darkMode: true], and
    a parser that knows this text only. *)
Definition darkModeBlob : jsstring :=
  lit "{" ++ [34%N] ++ lit "darkMode" ++ [34%N] ++ lit ":true}".

Definition sampleParse : jsstring → Completion JSValue := λ s,
  if decide (s = darkModeBlob) then Normal (JObj [(lit "darkMode", JBool true)])
  else Throw (lit "SyntaxError").

Definition noSessions : jsstring → Completion (option (list ChatSession.t)) :=
  λ _, Throw (lit "SyntaxError").

(** A send during which the user deletes the conversation: the translation
    arrives, or fails, after the deletion. *)
Definition deletedWhileTranslating : World :=
  exec (handleSendMessage tickingClock (λ _, Resolved (lit "salam"))
          (deleteSession tickingClock (λ _, true) (lit "1700000000000"))
          (lit "hi"))
       (mounted tickingClock).

Definition deletedWhileFailing : World :=
  exec (handleSendMessage tickingClock (λ _, Rejected (lit "offline"))
          (deleteSession tickingClock (λ _, true) (lit "1700000000000"))
          (lit "hi"))
       (mounted tickingClock).

(** A send whose translation fails at once, within the millisecond of the
    send. *)
Definition failedAtOnce : World :=
  exec (handleSendMessage sameMillisecond (λ _, Rejected (lit "offline"))
          (mret tt) (lit "hi"))
       (mounted sameMillisecond).

(** The word salam in Urdu script. *)
Definition urduReply : jsstring := [0x0633; 0x0644; 0x0627; 0x0645]%N.

(** A serializer and a parser that agree on the two sample sessions, and a
    pair that agrees on settings that hold [darkMode] only. *)
Definition sampleStringifySessions : list ChatSession.t → jsstring :=
  λ _, lit "[sessions]".

Definition sampleParseSessions : jsstring → Completion (option (list ChatSession.t)) :=
  λ _, Normal (Some [sampleSession; olderSession]).

Definition sampleStringifySettings : JSObject → jsstring := λ _, darkModeBlob.

Definition darkOnly : World :=
  with_settings (ownProperties (JObj [(lit "darkMode", JBool true)])) twoSessions.

(** * Properties *)

Section Properties.

Set Default Proof Using "Type".

Variable now : nat → Z.
Variable JSON_parse : jsstring → Completion JSValue.
Variable JSON_parse_sessions : jsstring → Completion (option (list ChatSession.t)).

Arguments lit : simpl never.
Arguments toString : simpl never.
Arguments substring : simpl never.
Arguments trim : simpl never.
Arguments DEFAULT_SETTINGS : simpl never.
Arguments SETTINGS_STORAGE_KEY : simpl never.
Arguments SESSIONS_STORAGE_KEY : simpl never.
Arguments ownProperties : simpl never.

Ltac run :=
  repeat (progress (unfold mbind, mret, M_bind, M_ret, get, modify, throw,
                    setSessions, setCurrentSessionId, setSettings,
                    setIsSettingsOpen, setIsHistoryOpen, setIsLoading,
                    Date_now, exec, result, complete; cbn)).

Lemma with_sessions_same w : with_sessions (sessions w) w = w.
Proof. by destruct w. Qed.

Lemma with_ticks_same w : with_ticks (ticks w) w = w.
Proof. by destruct w. Qed.

Lemma updateSession_miss cid text sender orig s w :
  ChatSession.id s ≠ cid →
  updateSession now cid text sender orig s w = (Normal s, w).
Proof.
  intros Hne. unfold updateSession.
  by rewrite bool_decide_eq_false_2.
Qed.

Lemma substring_prefix n (s : jsstring) : substring 0 n s = take n s.
Proof. unfold substring. by rewrite Nat.max_0_l, Nat.min_0_l, Nat.sub_0_r. Qed.

Lemma derived_title (text title : jsstring) (msgs : list Message.t) sender :
  (if bool_decide (length msgs = 0%nat) && bool_decide (sender = USER)
   then if bool_decide (30 < length text)%nat
        then substring 0 30 text ++ lit "..." else text
   else title)
  = (if bool_decide (msgs = []) && bool_decide (sender = USER)
     then if bool_decide (length text ≤ 30)%nat then text
          else take 30 text ++ lit "..."
     else title).
Proof.
  rewrite substring_prefix.
  destruct msgs; cbn; [|done].
  destruct (bool_decide (sender = USER)); cbn; [|done].
  repeat case_bool_decide; done || lia.
Qed.

Lemma updateSession_hit cid text sender orig s w :
  ChatSession.id s = cid →
  ∃ s', updateSession now cid text sender orig s w
          = (Normal s', with_ticks (3 + ticks w) w)
        ∧ appended cid text sender orig s s'.
Proof.
  intros Heq. unfold updateSession, appended.
  rewrite bool_decide_eq_true_2 by done.
  destruct (decide _) as [_|]; [|done].
  run. eexists; split; [reflexivity|].
  eexists (Message.mk _ _ _ _ _), _; cbn. repeat split.
  f_equal. apply derived_title.
Qed.

Lemma mapM_updateSession cid text sender orig l w :
  ∃ l' k, mapM (updateSession now cid text sender orig) l w
            = (Normal l', with_ticks (k + ticks w) w)
          ∧ Forall2 (appended cid text sender orig) l l'.
Proof.
  revert w. induction l as [|s l IH]; intros w.
  - exists [], 0%nat. cbn. by rewrite with_ticks_same.
  - cbn [mapM]. unfold mbind, M_bind at 1.
    destruct (decide (ChatSession.id s = cid)) as [Heq|Hne].
    + destruct (updateSession_hit cid text sender orig s w Heq) as (s' & -> & Hs).
      destruct (IH (with_ticks (3 + ticks w) w)) as (l' & k & HM & Hl).
      exists (s' :: l'), (k + 3)%nat. split; [|by constructor].
      unfold mbind, M_bind, mret, M_ret. rewrite HM.
      replace (k + 3 + ticks w)%nat
        with (k + ticks (with_ticks (3 + ticks w) w))%nat by (cbn; lia).
      reflexivity.
    + rewrite updateSession_miss by done.
      destruct (IH w) as (l' & k & HM & Hl).
      exists (s :: l'), k. split.
      * unfold mbind, M_bind, mret, M_ret. by rewrite HM.
      * constructor; [|done]. unfold appended. by rewrite decide_False.
Qed.

Lemma mapM_updateSession_miss cid text sender orig l w :
  Forall (λ s, ChatSession.id s ≠ cid) l →
  mapM (updateSession now cid text sender orig) l w = (Normal l, w).
Proof.
  induction 1 as [|s l Hs _ IH]; [done|].
  cbn [mapM]. unfold mbind, M_bind, mret, M_ret.
  by rewrite updateSession_miss, IH.
Qed.

Lemma addMessage_spec cid text sender orig w :
  ∃ next k,
    addMessageToCurrentSession now cid text sender orig w
      = (Normal tt, with_sessions next (with_ticks (k + ticks w) w))
    ∧ Forall2 (appended cid text sender orig) (sessions w) next.
Proof.
  destruct (mapM_updateSession cid text sender orig (sessions w) w)
    as (next & k & HM & Hnext).
  exists next, k. split; [|done].
  unfold addMessageToCurrentSession. run. by rewrite HM.
Qed.

(** The session at position [i] after an append. *)
Lemma addMessage_lookup cid text sender orig w i s :
  sessions w !! i = Some s →
  ∃ s', sessions (exec (addMessageToCurrentSession now cid text sender orig) w) !! i
          = Some s'
        ∧ appended cid text sender orig s s'.
Proof.
  intros Hi.
  destruct (addMessage_spec cid text sender orig w) as (next & k & HM & Hnext).
  unfold exec. rewrite HM. cbn.
  destruct (Forall2_lookup_l _ _ _ _ _ Hnext Hi) as (s' & ? & ?). eauto.
Qed.

Lemma addMessage_length cid text sender orig w :
  length (sessions (exec (addMessageToCurrentSession now cid text sender orig) w))
  = length (sessions w).
Proof.
  destruct (addMessage_spec cid text sender orig w) as (next & k & HM & Hnext).
  unfold exec. rewrite HM. cbn. symmetry. by eapply Forall2_length.
Qed.

Lemma addMessage_normal cid text sender orig w :
  result (addMessageToCurrentSession now cid text sender orig) w = Normal tt.
Proof.
  destruct (addMessage_spec cid text sender orig w) as (next & k & HM & _).
  unfold result. by rewrite HM.
Qed.

(** An append touches the sessions and the clock only. *)
Lemma addMessage_frame cid text sender orig w :
  let w' := exec (addMessageToCurrentSession now cid text sender orig) w in
  currentSessionId w' = currentSessionId w ∧ settings w' = settings w ∧
  isLoading w' = isLoading w ∧ spoken w' = spoken w ∧ console w' = console w.
Proof.
  destruct (addMessage_spec cid text sender orig w) as (next & k & HM & _).
  unfold exec. by rewrite HM.
Qed.

Lemma addMessage_lookup_hit cid text sender orig w i s :
  sessions w !! i = Some s →
  ChatSession.id s = cid →
  ∃ s' m,
    sessions (exec (addMessageToCurrentSession now cid text sender orig) w) !! i
      = Some s'
    ∧ ChatSession.messages s' = ChatSession.messages s ++ [m]
    ∧ Message.text m = text ∧ Message.sender m = sender
    ∧ Message.originalText m = orig.
Proof.
  intros Hi Hid.
  destruct (addMessage_lookup cid text sender orig w i s Hi) as (s' & Hs' & Happ).
  unfold appended in Happ. rewrite decide_True in Happ by done.
  destruct Happ as (m & u & Ht & Hsd & Ho & ->).
  eexists _, m. split; [exact Hs'|]. done.
Qed.

Lemma addMessage_lookup_miss cid text sender orig w i s :
  sessions w !! i = Some s →
  ChatSession.id s ≠ cid →
  sessions (exec (addMessageToCurrentSession now cid text sender orig) w) !! i
    = Some s.
Proof.
  intros Hi Hid.
  destruct (addMessage_lookup cid text sender orig w i s Hi) as (s' & Hs' & Happ).
  unfold appended in Happ. rewrite decide_False in Happ by done. by subst.
Qed.

(** C8. Appending to a session that is in the collection (a session whose
    id is the one the append is aimed at) makes its message list exactly one
    longer: the new list is the old one followed by the new message, so every
    message stored before is still there, unchanged, at its old position. *)
Theorem append_only cid text sender orig w i s :
  sessions w !! i = Some s →
  ChatSession.id s = cid →
  ∃ s' m,
    sessions (exec (addMessageToCurrentSession now cid text sender orig) w) !! i
      = Some s'
    ∧ ChatSession.messages s' = ChatSession.messages s ++ [m]
    ∧ length (ChatSession.messages s') = S (length (ChatSession.messages s))
    ∧ (∀ j x, ChatSession.messages s !! j = Some x →
              ChatSession.messages s' !! j = Some x)
    ∧ Message.text m = text ∧ Message.sender m = sender
    ∧ Message.originalText m = orig.
Proof.
  intros Hi Hid.
  destruct (addMessage_lookup_hit cid text sender orig w i s Hi Hid)
    as (s' & m & Hs' & Hm & Ht & Hsd & Ho).
  exists s', m. split; [exact Hs'|]. rewrite Hm. split_and!; [done| | |done..].
  - rewrite length_app. cbn. lia.
  - intros j x Hj. by apply lookup_app_l_Some.
Qed.

(** C5. When no session of the collection has the id the append is aimed
    at, the append completes normally and changes nothing at all: the
    collection, and the rest of the state, are what they were. *)
Theorem append_to_missing_session cid text sender orig w :
  (∀ s, s ∈ sessions w → ChatSession.id s ≠ cid) →
  addMessageToCurrentSession now cid text sender orig w = (Normal tt, w).
Proof.
  intros Hnone. unfold addMessageToCurrentSession. run.
  rewrite mapM_updateSession_miss by by apply Forall_forall.
  by rewrite with_sessions_same.
Qed.

(** C4. Appending to a session that has no message yet, with sender USER:
    the title becomes the text itself when the text has at most 30 code
    units, and its first 30 code units followed by three dots when it has
    more. Any other append (a later message, or sender AI) leaves the title
    as it was, so a title that is New Conversation stays so. *)
Theorem title_derivation cid text sender orig w i s :
  sessions w !! i = Some s →
  ChatSession.id s = cid →
  ∃ s',
    sessions (exec (addMessageToCurrentSession now cid text sender orig) w) !! i
      = Some s'
    ∧ (ChatSession.messages s = [] → sender = USER → (length text ≤ 30)%nat →
       ChatSession.title s' = text)
    ∧ (ChatSession.messages s = [] → sender = USER → (30 < length text)%nat →
       ChatSession.title s' = take 30 text ++ lit "...")
    ∧ (ChatSession.messages s ≠ [] ∨ sender ≠ USER →
       ChatSession.title s' = ChatSession.title s
       ∧ (ChatSession.title s = lit "New Conversation" →
          ChatSession.title s' = lit "New Conversation")).
Proof.
  intros Hi Hid.
  destruct (addMessage_lookup cid text sender orig w i s Hi) as (s' & Hs' & Happ).
  unfold appended in Happ. rewrite decide_True in Happ by done.
  destruct Happ as (m & u & _ & _ & _ & ->).
  eexists; split; [done|]. cbn. split_and!.
  - intros Hm Hu Hlen. by rewrite !bool_decide_eq_true_2.
  - intros Hm Hu Hlen. rewrite !bool_decide_eq_true_2 by done. cbn.
    rewrite bool_decide_eq_false_2; [done|lia].
  - intros Hother.
    assert (bool_decide (ChatSession.messages s = []) && bool_decide (sender = USER)
            = false) as ->.
    { apply andb_false_iff. destruct Hother.
      - left. by apply bool_decide_eq_false_2.
      - right. by apply bool_decide_eq_false_2. }
    done.
Qed.

(** ** Creating and deleting sessions *)

Lemma createNewSession_run w :
  createNewSession now w
  = (Normal tt,
     with_currentSessionId (toString (now (ticks w)))
       (with_sessions (freshSession now (ticks w) :: sessions w)
          (with_ticks (3 + ticks w) w))).
Proof. reflexivity. Qed.

Lemma deleteSession_declined window_confirm id w :
  window_confirm (lit "Delete this conversation?") = false →
  deleteSession now window_confirm id w = (Normal tt, w).
Proof. intros H. unfold deleteSession. run. by rewrite H. Qed.

Lemma deleteSession_run window_confirm id w :
  window_confirm (lit "Delete this conversation?") = true →
  deleteSession now window_confirm id w
  = (Normal tt,
     let remaining := filter (λ s, ChatSession.id s ≠ id) (sessions w) in
     if bool_decide (currentSessionId w = id) then
       match remaining with
       | first :: _ =>
           with_sessions remaining
             (with_currentSessionId (ChatSession.id first) w)
       | [] =>
           with_sessions [freshSession now (ticks w)]
             (with_currentSessionId (toString (now (ticks w)))
                (with_ticks (3 + ticks w) w))
       end
     else with_sessions remaining w).
Proof.
  intros H. unfold deleteSession. run. rewrite H.
  case_bool_decide; [|done].
  by destruct (filter _ _).
Qed.

Lemma clearHistory_run window_confirm w :
  window_confirm (lit "Clear ALL chat history?") = true →
  clearHistory now window_confirm w
  = (Normal tt,
     with_isSettingsOpen false
       (with_currentSessionId (toString (now (ticks w)))
          (with_sessions [freshSession now (ticks w)]
             (with_ticks (3 + ticks w)
                (with_localStorage (delete SESSIONS_STORAGE_KEY (localStorage w))
                   w))))).
Proof. intros H. unfold clearHistory. by rewrite H. Qed.

Lemma clearHistory_declined window_confirm w :
  window_confirm (lit "Clear ALL chat history?") = false →
  clearHistory now window_confirm w = (Normal tt, w).
Proof. intros H. unfold clearHistory. by rewrite H. Qed.

(** The head of a filtered list is the first element of the list that
    passes the filter. *)
Lemma filter_head {A} (P : A → Prop) `{!∀ x, Decision (P x)} (l : list A) x rest :
  filter P l = x :: rest →
  ∃ before after, l = before ++ x :: after ∧ Forall (λ y, ¬ P y) before ∧ P x.
Proof.
  induction l as [|y l IH]; [done|].
  rewrite filter_cons. destruct (decide (P y)) as [Hy|Hy].
  - intros [= -> <-]. by exists [], l.
  - intros (before & after & -> & ? & ?)%IH.
    exists (y :: before), after. split_and!; [done| |done]. by constructor.
Qed.

(** C3, as the code has it. Deleting a session, once the user has
    confirmed. The sessions that carry the id are filtered out and the
    others keep their order. When the deleted id was the current one, the
    new current session is the first session of the prior order that remains
    (every session before it carried the deleted id), which need not be the
    session that followed the deleted one; when none remains, the collection becomes one freshly
    created session, empty and titled New Conversation, and that one is
    current. *)
Theorem delete_session window_confirm id w :
  window_confirm (lit "Delete this conversation?") = true →
  let remaining := filter (λ s, ChatSession.id s ≠ id) (sessions w) in
  let w' := exec (deleteSession now window_confirm id) w in
  (∀ s, s ∈ remaining ↔ s ∈ sessions w ∧ ChatSession.id s ≠ id)
  ∧ (remaining ≠ [] ∨ currentSessionId w ≠ id → sessions w' = remaining)
  ∧ (∀ first rest,
       currentSessionId w = id → remaining = first :: rest →
       currentSessionId w' = ChatSession.id first
       ∧ sessions w' = first :: rest
       ∧ ∃ before after,
           sessions w = before ++ first :: after
           ∧ Forall (λ s, ChatSession.id s = id) before)
  ∧ (currentSessionId w = id → remaining = [] →
       ∃ fresh,
         sessions w' = [fresh]
         ∧ currentSessionId w' = ChatSession.id fresh
         ∧ ChatSession.messages fresh = []
         ∧ ChatSession.title fresh = lit "New Conversation"
         ∧ ChatSession.id fresh = toString (now (ticks w))).
Proof.
  intros Hyes remaining w'. subst w'. unfold exec.
  rewrite deleteSession_run by done. cbn. fold remaining.
  split_and!.
  - intros s. subst remaining. by rewrite list_elem_of_filter, (comm and).
  - intros Hcase. case_bool_decide; [|done].
    destruct Hcase as [Hne|]; [|done]. by destruct remaining.
  - intros first rest Hcur Hrem. rewrite bool_decide_eq_true_2 by done.
    rewrite Hrem. split_and!; [done..|].
    destruct (filter_head _ _ _ _ Hrem) as (before & after & ? & Hb & _).
    exists before, after. split; [done|].
    eapply Forall_impl; [exact Hb|]. cbn. intros s Hs.
    by destruct (decide (ChatSession.id s = id)).
  - intros Hcur Hrem. rewrite bool_decide_eq_true_2 by done. rewrite Hrem.
    by exists (freshSession now (ticks w)).
Qed.

(** C10. Deleting, once confirmed, a session whose id is not the current
    one: the current id stays, the collection becomes the prior one without
    the sessions that carry the id, every other session is kept as it was and
    in the prior order, and nothing else in the state changes. *)
Theorem delete_other_session window_confirm id w :
  window_confirm (lit "Delete this conversation?") = true →
  currentSessionId w ≠ id →
  let w' := exec (deleteSession now window_confirm id) w in
  currentSessionId w' = currentSessionId w
  ∧ sessions w' = filter (λ s, ChatSession.id s ≠ id) (sessions w)
  ∧ (∀ s, s ∈ sessions w' ↔ s ∈ sessions w ∧ ChatSession.id s ≠ id)
  ∧ sessions w' `sublist_of` sessions w
  ∧ w' = with_sessions (sessions w') w.
Proof.
  intros Hyes Hne w'. subst w'. unfold exec.
  rewrite deleteSession_run by done. cbn.
  rewrite bool_decide_eq_false_2 by done. cbn. split_and!; try done.
  - intros s. by rewrite list_elem_of_filter, (comm and).
  - apply sublist_filter.
Qed.

(** ** The collection is never empty *)

Lemma currentIsListed_nonempty w : currentIsListed w → sessions w ≠ [].
Proof. intros (s & Hs & _) Hnil. rewrite Hnil in Hs. by apply elem_of_nil in Hs. Qed.

Lemma createNewSession_listed w : currentIsListed (exec (createNewSession now) w).
Proof.
  unfold exec. rewrite createNewSession_run. cbn.
  exists (freshSession now (ticks w)). split; [apply list_elem_of_here|done].
Qed.

Lemma deleteSession_listed window_confirm id w :
  currentIsListed w → currentIsListed (exec (deleteSession now window_confirm id) w).
Proof.
  intros (s & Hs & Hid). unfold exec.
  destruct (window_confirm (lit "Delete this conversation?")) eqn:Hc.
  - rewrite deleteSession_run by done. cbn. case_bool_decide as Hcur.
    + destruct (filter _ _) as [|first rest] eqn:Hrem; cbn.
      * exists (freshSession now (ticks w)). split; [apply list_elem_of_here|done].
      * exists first. split; [apply list_elem_of_here|done].
    + exists s. cbn. split; [|done].
      apply list_elem_of_filter. split; [congruence|done].
  - rewrite deleteSession_declined by done. by exists s.
Qed.

Lemma clearHistory_listed window_confirm w :
  currentIsListed w → currentIsListed (exec (clearHistory now window_confirm) w).
Proof.
  intros Hw. unfold exec.
  destruct (window_confirm (lit "Clear ALL chat history?")) eqn:Hc.
  - rewrite clearHistory_run by done. cbn.
    exists (freshSession now (ticks w)). split; [apply list_elem_of_here|done].
  - by rewrite clearHistory_declined.
Qed.

Lemma perform_normal op w : result (perform now op) w = Normal tt.
Proof.
  unfold result. destruct op as [|id c|c]; cbn [perform].
  - by rewrite createNewSession_run.
  - destruct c; [by rewrite deleteSession_run|by rewrite deleteSession_declined].
  - destruct c; [by rewrite clearHistory_run|by rewrite clearHistory_declined].
Qed.

Lemma perform_listed op w : currentIsListed w → currentIsListed (exec (perform now op) w).
Proof.
  destruct op; cbn [perform];
    auto using createNewSession_listed, deleteSession_listed, clearHistory_listed.
Qed.

(** Sequencing after a computation that completes normally. *)
Lemma exec_then {A} (m : M unit) (k : M A) w :
  result m w = Normal tt → (m;; k) w = k (exec m w).
Proof.
  unfold result, exec, mbind, M_bind. destruct (m w) as [[[]|e] w1]; cbn; congruence.
Qed.

Lemma performAll_listed ops w :
  currentIsListed w → currentIsListed (exec (performAll now ops) w).
Proof.
  revert w. induction ops as [|op ops IH]; intros w Hw; [done|].
  cbn [performAll]. unfold exec at 1.
  rewrite exec_then by apply perform_normal.
  apply IH, perform_listed, Hw.
Qed.

Lemma performAll_normal ops w : result (performAll now ops) w = Normal tt.
Proof.
  revert w. induction ops as [|op ops IH]; intros w; [done|].
  cbn [performAll]. unfold result at 1.
  rewrite exec_then by apply perform_normal. apply IH.
Qed.

Lemma loadSettings_normal w : result (loadSettings JSON_parse) w = Normal tt.
Proof.
  unfold loadSettings, result. run.
  destruct (localStorage w !! SETTINGS_STORAGE_KEY) as [[|c saved]|]; [done| |done].
  unfold try_catch, try_catch_finally. run.
  by destruct (JSON_parse (c :: saved)).
Qed.

Lemma loadSessions_normal w :
  result (loadSessions now JSON_parse_sessions) w = Normal tt.
Proof.
  unfold loadSessions, result. run.
  destruct (localStorage w !! SESSIONS_STORAGE_KEY) as [[|c saved]|]; [done| |done].
  unfold try_catch, try_catch_finally. run.
  by destruct (JSON_parse_sessions (c :: saved)) as [[[|first parsed]|]|e].
Qed.

Lemma loadSessions_listed w :
  currentIsListed (exec (loadSessions now JSON_parse_sessions) w).
Proof.
  pose proof (createNewSession_listed w) as Hnew.
  unfold loadSessions, exec in *. run.
  destruct (localStorage w !! SESSIONS_STORAGE_KEY) as [[|c saved]|]; [done| |done].
  unfold try_catch, try_catch_finally. run.
  destruct (JSON_parse_sessions (c :: saved)) as [[[|first parsed]|]|e]; cbn;
    [done| |done|].
  - exists first. split; [apply list_elem_of_here|done].
  - apply (createNewSession_listed (with_console (console w ++ [e]) w)).
Qed.

Lemma initialDataLoad_listed w :
  currentIsListed (exec (initialDataLoad now JSON_parse JSON_parse_sessions) w).
Proof.
  unfold initialDataLoad, exec. rewrite exec_then by apply loadSettings_normal.
  apply loadSessions_listed.
Qed.

Lemma initialDataLoad_normal w :
  result (initialDataLoad now JSON_parse JSON_parse_sessions) w = Normal tt.
Proof.
  unfold initialDataLoad, result. rewrite exec_then by apply loadSettings_normal.
  apply loadSessions_normal.
Qed.

(** C2. After the initial load and any sequence of create, delete and
    clear-all operations (each delete and clear-all confirmed or declined by
    the user), the collection is not empty. When one session is left,
    deleting it gives a collection of exactly one session, freshly created:
    no messages, titled New Conversation. *)
Theorem sessions_never_empty storage ops :
  let w := exec (initialDataLoad now JSON_parse JSON_parse_sessions;;
                 performAll now ops) (initialWorld storage) in
  sessions w ≠ []
  ∧ (∀ s, sessions w = [s] →
       ∃ fresh,
         sessions (exec (deleteSession now (λ _, true) (ChatSession.id s)) w) = [fresh]
         ∧ length (sessions (exec (deleteSession now (λ _, true) (ChatSession.id s)) w)) = 1%nat
         ∧ ChatSession.messages fresh = []
         ∧ ChatSession.title fresh = lit "New Conversation"
         ∧ ChatSession.id fresh = toString (now (ticks w))).
Proof.
  intros w.
  assert (currentIsListed w) as Hw.
  { subst w. unfold exec at 1. rewrite exec_then by apply initialDataLoad_normal.
    apply performAll_listed, initialDataLoad_listed. }
  split; [by apply currentIsListed_nonempty|].
  intros s Hs. destruct Hw as (s0 & Hs0 & Hcur).
  rewrite Hs in Hs0. apply list_elem_of_singleton in Hs0 as ->.
  unfold exec at 1 2. rewrite deleteSession_run by done. cbn.
  rewrite bool_decide_eq_true_2 by done. rewrite Hs.
  rewrite filter_cons, decide_False by (intros H; by apply H). cbn.
  by exists (freshSession now (ticks w)).
Qed.

(** ** Loading the settings *)

Lemma loadSettings_run w :
  settings (exec (loadSettings JSON_parse) w)
  = match localStorage w !! SETTINGS_STORAGE_KEY with
    | Some ((_ :: _) as saved) =>
        match JSON_parse saved with
        | Normal blob => spread DEFAULT_SETTINGS blob
        | Throw _ => settings w
        end
    | _ => settings w
    end.
Proof.
  unfold loadSettings, exec. run.
  destruct (localStorage w !! SETTINGS_STORAGE_KEY) as [[|c saved]|]; [done| |done].
  unfold try_catch, try_catch_finally. run.
  by destruct (JSON_parse (c :: saved)).
Qed.

Lemma spread_lookup (a : JSObject) blob k :
  spread a blob !! k
  = match ownProperties blob !! k with Some v => Some v | None => a !! k end.
Proof.
  unfold spread. rewrite lookup_union.
  destruct (ownProperties blob !! k), (a !! k); done.
Qed.

(** The load of the settings, case by case, relative to the defaults. *)
Lemma loadSettings_cases storage :
  let loaded := settings (exec (loadSettings JSON_parse) (initialWorld storage)) in
  (∀ k, is_Some (DEFAULT_SETTINGS !! k) → is_Some (loaded !! k))
  ∧ (storage !! SETTINGS_STORAGE_KEY = None → loaded = DEFAULT_SETTINGS)
  ∧ (storage !! SETTINGS_STORAGE_KEY = Some [] → loaded = DEFAULT_SETTINGS)
  ∧ (∀ saved e,
       storage !! SETTINGS_STORAGE_KEY = Some saved →
       JSON_parse saved = Throw e → loaded = DEFAULT_SETTINGS)
  ∧ (∀ saved blob,
       storage !! SETTINGS_STORAGE_KEY = Some saved → saved ≠ [] →
       JSON_parse saved = Normal blob →
       ∀ k,
         (∀ v, ownProperties blob !! k = Some v → loaded !! k = Some v)
         ∧ (ownProperties blob !! k = None → loaded !! k = DEFAULT_SETTINGS !! k)
         ∧ (∀ members, blob = JObj members → k ∉ members.*1 →
              loaded !! k = DEFAULT_SETTINGS !! k)
         ∧ (∀ members v rest, blob = JObj (members ++ (k, v) :: rest) →
              k ∉ rest.*1 → loaded !! k = Some v)).
Proof.
  intros loaded. subst loaded. rewrite loadSettings_run. cbn [initialWorld localStorage settings].
  split_and!.
  - intros k Hk.
    destruct (storage !! SETTINGS_STORAGE_KEY) as [[|c saved]|]; [done| |done].
    destruct (JSON_parse (c :: saved)); [|done].
    rewrite spread_lookup. by destruct (ownProperties a !! k).
  - by intros ->.
  - by intros ->.
  - intros saved e -> He. destruct saved; [done|]. by rewrite He.
  - intros saved blob -> Hne Hblob k. destruct saved as [|c saved]; [done|].
    rewrite Hblob, spread_lookup. split_and!.
    + by intros v ->.
    + by intros ->.
    + intros members -> Hk.
      assert (ownProperties (JObj members) !! k = None) as ->; [|done].
      unfold ownProperties. apply not_elem_of_list_to_map_1.
      by rewrite fmap_reverse, elem_of_reverse.
    + intros members v rest -> Hk.
      assert (ownProperties (JObj (members ++ (k, v) :: rest)) !! k = Some v)
        as ->; [|done].
      unfold ownProperties. rewrite reverse_app, reverse_cons, <-(assoc (++)).
      rewrite list_to_map_app.
      apply lookup_union_Some_raw. right. split.
      * apply not_elem_of_list_to_map_1. by rewrite fmap_reverse, elem_of_reverse.
      * cbn. apply lookup_insert_eq.
Qed.

(** The defaults of [constants.ts], field by field: the four fields of
    [Settings] and no other. *)
Lemma DEFAULT_SETTINGS_fields :
  DEFAULT_SETTINGS !! lit "darkMode" = Some (JBool false)
  ∧ DEFAULT_SETTINGS !! lit "voiceEnabled" = Some (JBool true)
  ∧ DEFAULT_SETTINGS !! lit "preferredVoice" = Some (JStr (lit "en-US"))
  ∧ DEFAULT_SETTINGS !! lit "animationsEnabled" = Some (JBool true)
  ∧ ∀ k, k ∉ [lit "darkMode"; lit "voiceEnabled"; lit "preferredVoice";
              lit "animationsEnabled"] →
         DEFAULT_SETTINGS !! k = None.
Proof.
  split_and!; [by vm_compute..|].
  intros k Hk. unfold DEFAULT_SETTINGS. by apply not_elem_of_list_to_map_1.
Qed.

(** C7. The settings after the load effect, for every content of the
    storage. Each of the four fields of [Settings] (darkMode, voiceEnabled,
    preferredVoice, animationsEnabled) is defined. The defaults are false,
    true, en-US and true, and nothing else. With no stored blob, an empty
    one, or one that [JSON.parse] rejects, the settings are the defaults.
    With a blob that parses, each field the blob holds has the stored value
    and each field it lacks has its default; for a JSON object the fields it
    holds are its members, the last one of a repeated key. *)
Theorem settings_load storage :
  let loaded := settings (exec (loadSettings JSON_parse) (initialWorld storage)) in
  (is_Some (loaded !! lit "darkMode")
   ∧ is_Some (loaded !! lit "voiceEnabled")
   ∧ is_Some (loaded !! lit "preferredVoice")
   ∧ is_Some (loaded !! lit "animationsEnabled"))
  ∧ (DEFAULT_SETTINGS !! lit "darkMode" = Some (JBool false)
     ∧ DEFAULT_SETTINGS !! lit "voiceEnabled" = Some (JBool true)
     ∧ DEFAULT_SETTINGS !! lit "preferredVoice" = Some (JStr (lit "en-US"))
     ∧ DEFAULT_SETTINGS !! lit "animationsEnabled" = Some (JBool true)
     ∧ ∀ k, k ∉ [lit "darkMode"; lit "voiceEnabled"; lit "preferredVoice";
                 lit "animationsEnabled"] →
            DEFAULT_SETTINGS !! k = None)
  ∧ (∀ k, is_Some (DEFAULT_SETTINGS !! k) → is_Some (loaded !! k))
  ∧ (storage !! SETTINGS_STORAGE_KEY = None → loaded = DEFAULT_SETTINGS)
  ∧ (storage !! SETTINGS_STORAGE_KEY = Some [] → loaded = DEFAULT_SETTINGS)
  ∧ (∀ saved e,
       storage !! SETTINGS_STORAGE_KEY = Some saved →
       JSON_parse saved = Throw e → loaded = DEFAULT_SETTINGS)
  ∧ (∀ saved blob,
       storage !! SETTINGS_STORAGE_KEY = Some saved → saved ≠ [] →
       JSON_parse saved = Normal blob →
       ∀ k,
         (∀ v, ownProperties blob !! k = Some v → loaded !! k = Some v)
         ∧ (ownProperties blob !! k = None → loaded !! k = DEFAULT_SETTINGS !! k)
         ∧ (∀ members, blob = JObj members → k ∉ members.*1 →
              loaded !! k = DEFAULT_SETTINGS !! k)
         ∧ (∀ members v rest, blob = JObj (members ++ (k, v) :: rest) →
              k ∉ rest.*1 → loaded !! k = Some v)).
Proof.
  intros loaded.
  destruct (loadSettings_cases storage) as (Hfull & Hcases).
  destruct DEFAULT_SETTINGS_fields as (Hd & Hv & Hp & Ha & Hrest).
  fold loaded in Hfull, Hcases.
  split; [|split; [by split_and!|by split]].
  split_and!; apply Hfull.
  - by rewrite Hd.
  - by rewrite Hv.
  - by rewrite Hp.
  - by rewrite Ha.
Qed.

(** ** Sending a message *)

Lemma addMessage_run cid text sender orig w :
  addMessageToCurrentSession now cid text sender orig w
  = (Normal tt, exec (addMessageToCurrentSession now cid text sender orig) w).
Proof.
  pose proof (addMessage_normal cid text sender orig w) as H.
  unfold result, exec in *. destruct (addMessageToCurrentSession now _ _ _ _ _).
  cbn in *. by subst.
Qed.

Lemma atAwait_run text w :
  atAwait now text w
  = with_isLoading true
      (exec (addMessageToCurrentSession now (currentSessionId w) text USER None) w).
Proof. unfold atAwait, exec at 1. by rewrite exec_then by apply addMessage_normal. Qed.

Lemma handleSend_blank translateText meanwhile text w :
  trim text = [] →
  handleSendMessage now translateText meanwhile text w = (Normal tt, w).
Proof. intros H. unfold handleSendMessage. run. by rewrite bool_decide_eq_true_2. Qed.

Lemma handleSend_resolved translateText meanwhile text translated w :
  trim text ≠ [] →
  translateText text = Resolved translated →
  handleSendMessage now translateText meanwhile text w
  = (Normal tt,
     with_isLoading false
       ((if truthy (settings w !! lit "voiceEnabled")
         then exec (speak translated
                      (if hasUrduScript translated then lit "ur-PK" else lit "en-US"))
         else λ w, w)
          (exec (addMessageToCurrentSession now (currentSessionId w) translated AI
                   (Some text))
             (exec meanwhile (atAwait now text w))))).
Proof.
  intros Hne Hreply. rewrite atAwait_run. unfold handleSendMessage.
  unfold mbind at 1 2. unfold M_bind at 1 2. cbn [get].
  rewrite bool_decide_eq_false_2 by done.
  rewrite exec_then by apply addMessage_normal.
  unfold mbind at 1. unfold M_bind at 1. cbn [setIsLoading modify].
  unfold try_catch_finally, await_translateText.
  unfold mbind at 1. unfold M_bind at 1. rewrite Hreply.
  rewrite exec_then by apply addMessage_normal.
  by destruct (truthy _).
Qed.

Lemma handleSend_rejected translateText meanwhile text e w :
  trim text ≠ [] →
  translateText text = Rejected e →
  handleSendMessage now translateText meanwhile text w
  = (Normal tt,
     with_isLoading false
       (exec (addMessageToCurrentSession now (currentSessionId w) fallbackText AI None)
          (exec (console_error e) (exec meanwhile (atAwait now text w))))).
Proof.
  intros Hne Hreply. rewrite atAwait_run. unfold handleSendMessage.
  unfold mbind at 1 2. unfold M_bind at 1 2. cbn [get].
  rewrite bool_decide_eq_false_2 by done.
  rewrite exec_then by apply addMessage_normal.
  unfold mbind at 1. unfold M_bind at 1. cbn [setIsLoading modify].
  unfold try_catch_finally, await_translateText.
  unfold mbind at 1. unfold M_bind at 1. rewrite Hreply.
  rewrite exec_then by done.
  by rewrite addMessage_run.
Qed.

(** C1, as the code has it. A send of a text that is not blank, whose
    translation succeeds, completes normally with the loading flag false.
    At call time it appends one USER message with the input text to every
    session that carries the id current at call time. When the translation
    arrives it appends one AI message, with the translation as text and the
    input as original text, to every session that carries that id then, on
    top of the messages such a session holds at that moment; a session with
    another id is left alone. If the collection was not changed while the
    translation was awaited, the session's messages are the prior ones
    followed by the USER and then the AI message. *)
Theorem send_translated translateText meanwhile text translated w :
  trim text ≠ [] →
  translateText text = Resolved translated →
  let cid := currentSessionId w in
  let resumed := exec meanwhile (atAwait now text w) in
  let w' := exec (handleSendMessage now translateText meanwhile text) w in
  result (handleSendMessage now translateText meanwhile text) w = Normal tt
  ∧ isLoading w' = false
  ∧ (∀ i s, sessions w !! i = Some s → ChatSession.id s = cid →
       ∃ s1 user,
         sessions (atAwait now text w) !! i = Some s1
         ∧ ChatSession.messages s1 = ChatSession.messages s ++ [user]
         ∧ Message.text user = text ∧ Message.sender user = USER
         ∧ Message.originalText user = None)
  ∧ (∀ i s, sessions resumed !! i = Some s → ChatSession.id s = cid →
       ∃ s' ai,
         sessions w' !! i = Some s'
         ∧ ChatSession.messages s' = ChatSession.messages s ++ [ai]
         ∧ Message.text ai = translated ∧ Message.sender ai = AI
         ∧ Message.originalText ai = Some text)
  ∧ (∀ i s, sessions resumed !! i = Some s → ChatSession.id s ≠ cid →
       sessions w' !! i = Some s)
  ∧ (sessions resumed = sessions (atAwait now text w) →
     ∀ i s, sessions w !! i = Some s → ChatSession.id s = cid →
       ∃ s' user ai,
         sessions w' !! i = Some s'
         ∧ ChatSession.messages s' = ChatSession.messages s ++ [user; ai]
         ∧ Message.text user = text ∧ Message.sender user = USER
         ∧ Message.originalText user = None
         ∧ Message.text ai = translated ∧ Message.sender ai = AI
         ∧ Message.originalText ai = Some text).
Proof.
  intros Hne Hreply cid resumed w'.
  assert (sessions w'
          = sessions (exec (addMessageToCurrentSession now cid translated AI (Some text))
                        resumed)) as Hw'.
  { subst w'. unfold exec at 1.
    rewrite (handleSend_resolved _ _ _ _ _ Hne Hreply). cbn.
    by destruct (truthy _). }
  assert (∀ i s, sessions w !! i = Some s → ChatSession.id s = cid →
    ∃ s1 user,
      sessions (atAwait now text w) !! i = Some s1
      ∧ ChatSession.messages s1 = ChatSession.messages s ++ [user]
      ∧ ChatSession.id s1 = cid
      ∧ Message.text user = text ∧ Message.sender user = USER
      ∧ Message.originalText user = None) as Huser.
  { intros i s Hi Hid. rewrite atAwait_run. cbn.
    destruct (addMessage_lookup cid text USER None w i s Hi) as (s1 & Hs1 & Happ).
    unfold appended in Happ. rewrite decide_True in Happ by done.
    destruct Happ as (m & u & ? & ? & ? & ->). by eexists _, m. }
  split_and!.
  - unfold result. by rewrite (handleSend_resolved _ _ _ _ _ Hne Hreply).
  - subst w'. unfold exec at 1.
    by rewrite (handleSend_resolved _ _ _ _ _ Hne Hreply).
  - intros i s Hi Hid. destruct (Huser i s Hi Hid) as (s1 & user & ? & ? & ? & ?).
    by exists s1, user.
  - intros i s Hi Hid. rewrite Hw'. by apply addMessage_lookup_hit.
  - intros i s Hi Hid. rewrite Hw'. by apply addMessage_lookup_miss.
  - intros Hquiet i s Hi Hid.
    destruct (Huser i s Hi Hid) as (s1 & user & Hs1 & Hm1 & Hid1 & ?).
    rewrite <-Hquiet in Hs1.
    destruct (addMessage_lookup_hit cid translated AI (Some text) resumed i s1
                Hs1 Hid1) as (s' & ai & Hs' & Hm' & ? & ? & ?).
    exists s', user, ai. rewrite Hw'. split; [done|].
    rewrite Hm', Hm1, <-(assoc (++)). cbn. by destruct_and!.
Qed.

(** C6, as the code has it. A send of a text that is not blank, whose
    translation fails, completes normally (the rejection is caught, and
    logged on the console) with the loading flag false. When the rejection
    arrives it appends one AI message with the fixed fallback text, whatever
    the error was, to every session that carries the id current at call time
    then; a session with another id is left alone. If the collection was not
    changed while the translation was awaited, the session's messages are
    the prior ones followed by the USER message and then the fallback. *)
Theorem send_failed translateText meanwhile text e w :
  trim text ≠ [] →
  translateText text = Rejected e →
  let cid := currentSessionId w in
  let resumed := exec meanwhile (atAwait now text w) in
  let w' := exec (handleSendMessage now translateText meanwhile text) w in
  result (handleSendMessage now translateText meanwhile text) w = Normal tt
  ∧ isLoading w' = false
  ∧ console w' = console resumed ++ [e]
  ∧ (∀ i s, sessions resumed !! i = Some s → ChatSession.id s = cid →
       ∃ s' ai,
         sessions w' !! i = Some s'
         ∧ ChatSession.messages s' = ChatSession.messages s ++ [ai]
         ∧ Message.text ai = fallbackText ∧ Message.sender ai = AI
         ∧ Message.originalText ai = None)
  ∧ (∀ i s, sessions resumed !! i = Some s → ChatSession.id s ≠ cid →
       sessions w' !! i = Some s)
  ∧ (sessions resumed = sessions (atAwait now text w) →
     ∀ i s, sessions w !! i = Some s → ChatSession.id s = cid →
       ∃ s' user ai,
         sessions w' !! i = Some s'
         ∧ ChatSession.messages s' = ChatSession.messages s ++ [user; ai]
         ∧ Message.text user = text ∧ Message.sender user = USER
         ∧ Message.text ai = fallbackText ∧ Message.sender ai = AI
         ∧ Message.originalText ai = None).
Proof.
  intros Hne Hreply cid resumed w'.
  set (logged := exec (console_error e) resumed).
  assert (sessions logged = sessions resumed) as Hlogged by done.
  assert (sessions w'
          = sessions (exec (addMessageToCurrentSession now cid fallbackText AI None)
                        logged)) as Hw'.
  { subst w'. unfold exec at 1.
    by rewrite (handleSend_rejected _ _ _ _ _ Hne Hreply). }
  split_and!.
  - unfold result. by rewrite (handleSend_rejected _ _ _ _ _ Hne Hreply).
  - subst w'. unfold exec at 1.
    by rewrite (handleSend_rejected _ _ _ _ _ Hne Hreply).
  - subst w'. unfold exec at 1.
    rewrite (handleSend_rejected _ _ _ _ _ Hne Hreply).
    cbn [snd with_isLoading console].
    destruct (addMessage_frame cid fallbackText AI None logged)
      as (_ & _ & _ & _ & Hc).
    etrans; [exact Hc|done].
  - intros i s Hi Hid. rewrite Hw'. apply addMessage_lookup_hit; [|done].
    by rewrite Hlogged.
  - intros i s Hi Hid. rewrite Hw'. apply addMessage_lookup_miss; [|done].
    by rewrite Hlogged.
  - intros Hquiet i s Hi Hid.
    destruct (addMessage_lookup cid text USER None w i s Hi) as (s1 & Hs1 & Happ).
    unfold appended in Happ. rewrite decide_True in Happ by done.
    destruct Happ as (user & u & ? & ? & ? & ->).
    assert (sessions logged !! i = Some
              (ChatSession.mk (ChatSession.id s)
                 (if bool_decide (ChatSession.messages s = []) && bool_decide (USER = USER)
                  then if bool_decide (length text ≤ 30)%nat then text
                       else take 30 text ++ lit "..."
                  else ChatSession.title s)
                 (ChatSession.messages s ++ [user]) (ChatSession.createdAt s) u))
      as Hs1'.
    { rewrite Hlogged, Hquiet, atAwait_run. exact Hs1. }
    destruct (addMessage_lookup_hit cid fallbackText AI None logged i _ Hs1' Hid)
      as (s' & ai & Hs' & Hm' & ? & ? & ?).
    exists s', user, ai. rewrite Hw'. split; [done|].
    rewrite Hm'. cbn. rewrite <-(assoc (++)). cbn. done.
Qed.

End Properties.

(** * Runs on the sample inputs *)

(** An append to the current one of two sessions. *)
Lemma append_only_witness :
  ∃ s' m,
    sessions (exec (addMessageToCurrentSession tickingClock (lit "1700000000000")
                      (lit "hi") USER None) twoSessions) !! 0%nat = Some s'
    ∧ ChatSession.messages s' = [m]
    ∧ Message.text m = lit "hi".
Proof.
  destruct (append_only tickingClock (lit "1700000000000") (lit "hi") USER None
              twoSessions 0 sampleSession eq_refl eq_refl)
    as (s' & m & H1 & H2 & _ & _ & H3 & _).
  exists s', m. split; [exact H1|]. split; [exact H2|exact H3].
Defined.

(** An append aimed at an id that no session carries. *)
Lemma append_to_missing_session_witness :
  addMessageToCurrentSession tickingClock (lit "gone") (lit "salam") AI
    (Some (lit "hi")) twoSessions
  = (Normal tt, twoSessions).
Proof.
  apply append_to_missing_session.
  intros s Hs. apply list_elem_of_In in Hs. cbn in Hs.
  destruct Hs as [<-|[<-|[]]]; vm_compute; discriminate.
Defined.

(** The first message of a session, a short one from the user. *)
Lemma title_derivation_witness :
  ∃ s',
    sessions (exec (addMessageToCurrentSession tickingClock (lit "1700000000000")
                      (lit "hi") USER None) twoSessions) !! 0%nat = Some s'
    ∧ ChatSession.title s' = lit "hi".
Proof.
  destruct (title_derivation tickingClock (lit "1700000000000") (lit "hi") USER None
              twoSessions 0 sampleSession eq_refl eq_refl)
    as (s' & H1 & H2 & _).
  exists s'. split; [exact H1|]. apply H2; [reflexivity|reflexivity|].
  vm_compute. lia.
Defined.

(** Deleting the current session, in the middle of three: the newest one,
    at the head, takes over. *)
Lemma delete_session_witness :
  currentSessionId (exec (deleteSession tickingClock (λ _, true) (lit "1700000000000"))
                      middleCurrent)
  = lit "1800000000000"
  ∧ sessions (exec (deleteSession tickingClock (λ _, true) (lit "1700000000000"))
                middleCurrent)
    = [newerSession; olderSession].
Proof.
  pose proof (delete_session tickingClock (λ _, true) (lit "1700000000000")
                middleCurrent eq_refl) as (_ & _ & H & _).
  assert (currentSessionId middleCurrent = lit "1700000000000") as Hcur
    by (vm_compute; reflexivity).
  assert (filter (λ s, ChatSession.id s ≠ lit "1700000000000") (sessions middleCurrent)
          = [newerSession; olderSession]) as Hrem by (vm_compute; reflexivity).
  destruct (H newerSession [olderSession] Hcur Hrem) as (H1 & H2 & _).
  split; [exact H1|exact H2].
Defined.

(** Against C3 as the specification words it: the current session lies
    between a newer and an older one. Once it is deleted, the session that
    followed it in the prior order remains, yet the session before it, at
    the head, becomes current. *)
Lemma delete_session_counterexample :
  sessions middleCurrent = [newerSession; sampleSession; olderSession]
  ∧ currentSessionId middleCurrent = ChatSession.id sampleSession
  ∧ sessions (exec (deleteSession tickingClock (λ _, true)
                      (ChatSession.id sampleSession)) middleCurrent)
    = [newerSession; olderSession]
  ∧ currentSessionId (exec (deleteSession tickingClock (λ _, true)
                              (ChatSession.id sampleSession)) middleCurrent)
    = ChatSession.id newerSession
  ∧ currentSessionId (exec (deleteSession tickingClock (λ _, true)
                              (ChatSession.id sampleSession)) middleCurrent)
    ≠ ChatSession.id olderSession.
Proof.
  split_and!; try (vm_compute; reflexivity).
  vm_compute. discriminate.
Qed.

(** Deleting the session that is not current. *)
Lemma delete_other_session_witness :
  currentSessionId (exec (deleteSession tickingClock (λ _, true) (lit "1600000000000"))
                      twoSessions)
  = lit "1700000000000"
  ∧ sessions (exec (deleteSession tickingClock (λ _, true) (lit "1600000000000"))
                twoSessions)
    = [sampleSession].
Proof.
  assert (currentSessionId twoSessions ≠ lit "1600000000000") as Hne.
  { vm_compute. discriminate. }
  pose proof (delete_other_session tickingClock (λ _, true) (lit "1600000000000")
                twoSessions eq_refl Hne) as (H1 & H2 & _).
  split; [exact H1|]. etrans; [exact H2|]. reflexivity.
Defined.

(** A mount on an empty storage, a new chat, a clear-all, and the deletion
    of the one session that is left. *)
Lemma sessions_never_empty_witness :
  sessions (exec (initialDataLoad tickingClock sampleParse noSessions;;
                  performAll tickingClock [CreateSession; ClearAll true])
              (initialWorld ∅)) ≠ []
  ∧ ∃ fresh,
      sessions (exec (deleteSession tickingClock (λ _, true) (lit "1700000000006"))
                  (exec (initialDataLoad tickingClock sampleParse noSessions;;
                         performAll tickingClock [CreateSession; ClearAll true])
                     (initialWorld ∅)))
      = [fresh]
      ∧ ChatSession.messages fresh = [].
Proof.
  pose proof (sessions_never_empty tickingClock sampleParse noSessions ∅
                [CreateSession; ClearAll true]) as [Hne Hsole].
  split; [exact Hne|].
  destruct (Hsole (freshSession tickingClock 6) eq_refl)
    as (fresh & H1 & _ & H2 & _).
  exists fresh. split; [exact H1|exact H2].
Defined.

(** A stored object that holds [darkMode] only: the stored value for that
    field, the defaults for the three others. *)
Lemma settings_load_witness :
  settings (exec (loadSettings sampleParse)
              (initialWorld {[ SETTINGS_STORAGE_KEY := darkModeBlob ]}))
    !! lit "darkMode" = Some (JBool true)
  ∧ settings (exec (loadSettings sampleParse)
                (initialWorld {[ SETTINGS_STORAGE_KEY := darkModeBlob ]}))
      !! lit "voiceEnabled" = Some (JBool true)
  ∧ settings (exec (loadSettings sampleParse)
                (initialWorld {[ SETTINGS_STORAGE_KEY := darkModeBlob ]}))
      !! lit "preferredVoice" = Some (JStr (lit "en-US"))
  ∧ settings (exec (loadSettings sampleParse)
                (initialWorld {[ SETTINGS_STORAGE_KEY := darkModeBlob ]}))
      !! lit "animationsEnabled" = Some (JBool true).
Proof.
  pose proof (settings_load sampleParse {[ SETTINGS_STORAGE_KEY := darkModeBlob ]})
    as (_ & (_ & Hv & Hp & Ha & _) & _ & _ & _ & _ & H).
  assert (darkModeBlob ≠ []) as Hne by (vm_compute; discriminate).
  assert (∀ k, k ≠ lit "darkMode" →
            ownProperties (JObj [(lit "darkMode", JBool true)]) !! k = None)
    as Hlacks.
  { intros k Hk. unfold ownProperties. apply not_elem_of_list_to_map_1. cbn.
    by intros ->%list_elem_of_singleton. }
  pose proof (H darkModeBlob (JObj [(lit "darkMode", JBool true)])
                (lookup_singleton_eq _ _) Hne eq_refl) as Hk.
  split_and!.
  - destruct (Hk (lit "darkMode")) as (Hheld & _). apply Hheld. reflexivity.
  - destruct (Hk (lit "voiceEnabled")) as (_ & Hdef & _).
    etrans; [apply Hdef, Hlacks|exact Hv]. vm_compute. discriminate.
  - destruct (Hk (lit "preferredVoice")) as (_ & Hdef & _).
    etrans; [apply Hdef, Hlacks|exact Hp]. vm_compute. discriminate.
  - destruct (Hk (lit "animationsEnabled")) as (_ & Hdef & _).
    etrans; [apply Hdef, Hlacks|exact Ha]. vm_compute. discriminate.
Defined.

(** A send that nothing interrupts, translated. *)
Lemma send_translated_witness :
  ∃ s' user ai,
    sessions (exec (handleSendMessage tickingClock (λ _, Resolved (lit "salam"))
                      (mret tt) (lit "hi"))
                (mounted tickingClock)) !! 0%nat = Some s'
    ∧ ChatSession.messages s' = [user; ai]
    ∧ Message.text user = lit "hi"
    ∧ Message.text ai = lit "salam".
Proof.
  assert (trim (lit "hi") ≠ []) as Hne by (vm_compute; discriminate).
  pose proof (send_translated tickingClock (λ _, Resolved (lit "salam")) (mret tt)
                (lit "hi") (lit "salam") (mounted tickingClock) Hne eq_refl)
    as (_ & _ & _ & _ & _ & Hquiet).
  assert (sessions (mounted tickingClock) !! 0%nat = Some sampleSession) as Hfirst
    by (vm_compute; reflexivity).
  assert (ChatSession.id sampleSession = currentSessionId (mounted tickingClock))
    as Hid by (vm_compute; reflexivity).
  assert (sessions (exec (mret tt) (atAwait tickingClock (lit "hi")
                                      (mounted tickingClock)))
          = sessions (atAwait tickingClock (lit "hi") (mounted tickingClock)))
    as Hsame by (vm_compute; reflexivity).
  destruct (Hquiet Hsame 0%nat sampleSession Hfirst Hid)
    as (s' & user & ai & H1 & H2 & H3 & _ & _ & H4 & _).
  exists s', user, ai. split; [exact H1|]. split; [exact H2|].
  split; [exact H3|exact H4].
Defined.

(** A send that nothing interrupts, failed. *)
Lemma send_failed_witness :
  ∃ s' user ai,
    sessions (exec (handleSendMessage tickingClock (λ _, Rejected (lit "offline"))
                      (mret tt) (lit "hi"))
                (mounted tickingClock)) !! 0%nat = Some s'
    ∧ ChatSession.messages s' = [user; ai]
    ∧ Message.text ai = fallbackText.
Proof.
  assert (trim (lit "hi") ≠ []) as Hne by (vm_compute; discriminate).
  pose proof (send_failed tickingClock (λ _, Rejected (lit "offline")) (mret tt)
                (lit "hi") (lit "offline") (mounted tickingClock) Hne eq_refl)
    as (_ & _ & _ & _ & _ & Hquiet).
  assert (sessions (mounted tickingClock) !! 0%nat = Some sampleSession) as Hfirst
    by (vm_compute; reflexivity).
  assert (ChatSession.id sampleSession = currentSessionId (mounted tickingClock))
    as Hid by (vm_compute; reflexivity).
  assert (sessions (exec (mret tt) (atAwait tickingClock (lit "hi")
                                      (mounted tickingClock)))
          = sessions (atAwait tickingClock (lit "hi") (mounted tickingClock)))
    as Hsame by (vm_compute; reflexivity).
  destruct (Hquiet Hsame 0%nat sampleSession Hfirst Hid)
    as (s' & user & ai & H1 & H2 & _ & _ & H3 & _).
  exists s', user, ai. split; [exact H1|]. split; [exact H2|exact H3].
Defined.

(** Against C1 as the specification words it: the conversation is deleted
    while the translation is awaited. The text is not blank, the current
    session is in the collection at call time and the translation succeeds,
    yet no session holds an AI message afterwards. *)
Lemma send_translated_counterexample :
  trim (lit "hi") ≠ []
  ∧ currentIsListed (mounted tickingClock)
  ∧ currentSessionId (mounted tickingClock) = lit "1700000000000"
  ∧ ¬ ∃ s m, s ∈ sessions deletedWhileTranslating
            ∧ m ∈ ChatSession.messages s ∧ Message.sender m = AI.
Proof.
  split; [vm_compute; discriminate|].
  split; [exists sampleSession; split; [apply list_elem_of_here|reflexivity]|].
  split; [reflexivity|].
  intros (s & m & Hs & Hm & _).
  assert (sessions deletedWhileTranslating = [freshSession tickingClock 6]) as Heq
    by (vm_compute; reflexivity).
  rewrite Heq in Hs. apply list_elem_of_singleton in Hs. subst s.
  by apply elem_of_nil in Hm.
Qed.

(** Against C6 as the specification words it: the translation is rejected
    after the conversation was deleted. The loading flag is false again, but
    no session holds the fallback message afterwards. *)
Lemma send_failed_counterexample :
  trim (lit "hi") ≠ []
  ∧ currentIsListed (mounted tickingClock)
  ∧ currentSessionId (mounted tickingClock) = lit "1700000000000"
  ∧ isLoading deletedWhileFailing = false
  ∧ ¬ ∃ s m, s ∈ sessions deletedWhileFailing
            ∧ m ∈ ChatSession.messages s ∧ Message.text m = fallbackText.
Proof.
  split; [vm_compute; discriminate|].
  split; [exists sampleSession; split; [apply list_elem_of_here|reflexivity]|].
  split; [reflexivity|]. split; [reflexivity|].
  intros (s & m & Hs & Hm & _).
  assert (sessions deletedWhileFailing = [freshSession tickingClock 6]) as Heq
    by (vm_compute; reflexivity).
  rewrite Heq in Hs. apply list_elem_of_singleton in Hs. subst s.
  by apply elem_of_nil in Hm.
Qed.

(** C9 does not hold of the code. A message id is the clock reading, in
    decimal, taken when the message is appended. When the translation of a
    send fails within the millisecond of the send, the USER message and the
    fallback message that follows it are two different messages with one and
    the same id. *)
Theorem message_ids_collide :
  ∃ s user ai,
    sessions failedAtOnce = [s]
    ∧ ChatSession.messages s = [user; ai]
    ∧ Message.sender user = USER ∧ Message.sender ai = AI
    ∧ user ≠ ai
    ∧ Message.id user = lit "1700000004321"
    ∧ Message.id ai = lit "1700000004321".
Proof.
  eexists _, _, _. split; [vm_compute; reflexivity|].
  split; [reflexivity|]. split; [reflexivity|]. split; [reflexivity|].
  split; [discriminate|]. split; vm_compute; reflexivity.
Qed.

(** * Further properties of the component *)

Section Further.

Set Default Proof Using "Type".

Variable now : nat → Z.
Variable JSON_parse : jsstring → Completion JSValue.
Variable JSON_parse_sessions : jsstring → Completion (option (list ChatSession.t)).
Variable JSON_stringify_settings : JSObject → jsstring.
Variable JSON_stringify_sessions : list ChatSession.t → jsstring.

(** ** Blank input *)

Lemma trimStart_nil (s : jsstring) :
  trimStart s = [] ↔ Forall (λ c, isWhiteSpace c = true) s.
Proof.
  induction s as [|c s IH]; cbn [trimStart]; [done|]. split.
  - intros H. destruct (isWhiteSpace c) eqn:Hc; [|done].
    constructor; [done|by apply IH].
  - intros [Hc Hs]%Forall_cons. rewrite Hc. by apply IH.
Qed.

(** What [trimStart] leaves does not begin with white space. *)
Lemma trimStart_head (s : jsstring) c rest :
  trimStart s = c :: rest → isWhiteSpace c = false.
Proof.
  induction s as [|d s IH]; cbn [trimStart]; [done|].
  destruct (isWhiteSpace d) eqn:Hd; [done|]. by intros [= -> _].
Qed.

Lemma trim_nil (s : jsstring) :
  trim s = [] ↔ Forall (λ c, isWhiteSpace c = true) s.
Proof.
  unfold trim, trimEnd. split.
  - intros H. apply (f_equal reverse) in H. rewrite reverse_involutive in H.
    change (reverse []) with (@nil N) in H.
    apply trimStart_nil in H. rewrite Forall_reverse in H.
    destruct (trimStart s) as [|c rest] eqn:Hs; [by apply trimStart_nil|].
    apply trimStart_head in Hs. apply Forall_cons in H as [Hc _].
    rewrite Hs in Hc. discriminate.
  - intros H. apply trimStart_nil in H. by rewrite H.
Qed.

(** X1. A send of a text made of white space only (the empty text
    included) does nothing: no message is appended, the loading flag is not
    touched, no translation is awaited, whatever the service would answer. *)
Theorem blank_send_does_nothing translateText meanwhile (text : jsstring) w :
  Forall (λ c, isWhiteSpace c = true) text →
  handleSendMessage now translateText meanwhile text w = (Normal tt, w).
Proof.
  intros Hblank. apply handleSend_blank. by apply trim_nil.
Qed.

(** ** Speech *)

Lemma hasUrduScript_spec (s : jsstring) :
  hasUrduScript s = true ↔ ∃ c, c ∈ s ∧ (0x0600 ≤ c ≤ 0x06FF)%N.
Proof.
  unfold hasUrduScript. rewrite existsb_exists. split.
  - intros (c & Hin & Hc). exists c. rewrite list_elem_of_In. split; [done|].
    apply andb_true_iff in Hc as [?%N.leb_le ?%N.leb_le]. lia.
  - intros (c & Hin & Hc). exists c. rewrite <-list_elem_of_In. split; [done|].
    apply andb_true_iff. split; apply N.leb_le; lia.
Qed.

(** X2. When the translation of a send arrives, the translation is spoken
    once if the voice setting was truthy when the send was called, and not
    at all otherwise; a change of the setting while the translation was
    awaited does not count. The voice is the Urdu one exactly when some code
    unit of the translation lies in the range 0600-06FF, and the English
    one otherwise. *)
Theorem send_speaks_translation translateText meanwhile text translated w :
  trim text ≠ [] →
  translateText text = Resolved translated →
  let resumed := exec meanwhile (atAwait now text w) in
  let w' := exec (handleSendMessage now translateText meanwhile text) w in
  (truthy (settings w !! lit "voiceEnabled") = false → spoken w' = spoken resumed)
  ∧ (truthy (settings w !! lit "voiceEnabled") = true →
     ((∃ c, c ∈ translated ∧ (0x0600 ≤ c ≤ 0x06FF)%N) →
      spoken w' = spoken resumed ++ [(translated, lit "ur-PK")])
     ∧ ((∀ c, c ∈ translated → ¬ (0x0600 ≤ c ≤ 0x06FF)%N) →
        spoken w' = spoken resumed ++ [(translated, lit "en-US")])).
Proof.
  intros Hne Hreply resumed w'.
  assert (spoken w'
          = spoken resumed
            ++ (if truthy (settings w !! lit "voiceEnabled")
                then [(translated,
                       if hasUrduScript translated then lit "ur-PK" else lit "en-US")]
                else [])) as Hspoken.
  { subst w'. unfold exec at 1.
    rewrite (handleSend_resolved now _ _ _ _ _ Hne Hreply).
    fold resumed. cbn [snd].
    destruct (addMessage_frame now (currentSessionId w) translated AI (Some text)
                resumed) as (_ & _ & _ & Hsp & _).
    destruct (truthy _); cbn; rewrite Hsp; [done|by rewrite app_nil_r]. }
  rewrite Hspoken. split.
  - intros ->. by rewrite app_nil_r.
  - intros ->. split.
    + intros Hurdu%hasUrduScript_spec. by rewrite Hurdu.
    + intros Hnone.
      assert (hasUrduScript translated = false) as ->; [|done].
      apply not_true_is_false. intros (c & ? & ?)%hasUrduScript_spec.
      by eapply Hnone.
Qed.

(** X3. When the translation of a send fails nothing is spoken, whatever
    the voice setting is. *)
Theorem failed_send_is_silent translateText meanwhile text e w :
  trim text ≠ [] →
  translateText text = Rejected e →
  spoken (exec (handleSendMessage now translateText meanwhile text) w)
  = spoken (exec meanwhile (atAwait now text w)).
Proof.
  intros Hne Hreply. unfold exec at 1.
  rewrite (handleSend_rejected now _ _ _ _ _ Hne Hreply). cbn [snd].
  set (logged := exec (console_error e) _).
  destruct (addMessage_frame now (currentSessionId w) fallbackText AI None logged)
    as (_ & _ & _ & Hsp & _).
  etrans; [exact Hsp|done].
Qed.

(** ** Appends, tick by tick *)

Lemma appendedAt_weaken cid text sender orig lo hi lo' hi' s s' :
  (lo' ≤ lo)%nat → (hi ≤ hi')%nat →
  appendedAt now cid text sender orig lo hi s s' →
  appendedAt now cid text sender orig lo' hi' s s'.
Proof.
  intros Hlo Hhi. unfold appendedAt. destruct (decide _); [|done].
  intros (k & ? & ->). exists k. split; [lia|done].
Qed.

Lemma updateSession_at cid text sender orig s w :
  ChatSession.id s = cid →
  ∃ s', updateSession now cid text sender orig s w
          = (Normal s', with_ticks (3 + ticks w) w)
        ∧ appendedAt now cid text sender orig (ticks w) (3 + ticks w) s s'.
Proof.
  intros Heq. unfold updateSession, appendedAt.
  rewrite bool_decide_eq_true_2 by done.
  destruct (decide _) as [_|]; [|done].
  eexists; split; [reflexivity|].
  exists (ticks w). split; [lia|]. cbn. f_equal. apply derived_title.
Qed.

Lemma mapM_updateSession_at cid text sender orig l w :
  ∃ l' k, mapM (updateSession now cid text sender orig) l w
            = (Normal l', with_ticks (k + ticks w) w)
          ∧ Forall2 (appendedAt now cid text sender orig (ticks w) (k + ticks w)) l l'.
Proof.
  revert w. induction l as [|s l IH]; intros w.
  - exists [], 0%nat. cbn. by rewrite with_ticks_same.
  - cbn [mapM]. unfold mbind, M_bind at 1.
    destruct (decide (ChatSession.id s = cid)) as [Heq|Hne].
    + destruct (updateSession_at cid text sender orig s w Heq) as (s' & -> & Hs).
      destruct (IH (with_ticks (3 + ticks w) w)) as (l' & k & HM & Hl).
      cbn [ticks with_ticks] in Hl.
      exists (s' :: l'), (k + 3)%nat. split.
      * unfold mbind, M_bind, mret, M_ret. rewrite HM.
        replace (k + 3 + ticks w)%nat
          with (k + ticks (with_ticks (3 + ticks w) w))%nat by (cbn; lia).
        reflexivity.
      * constructor.
        -- eapply appendedAt_weaken; [| |exact Hs]; lia.
        -- eapply Forall2_impl; [exact Hl|]. intros x y Hxy.
           eapply appendedAt_weaken; [| |exact Hxy]; lia.
    + rewrite updateSession_miss by done.
      destruct (IH w) as (l' & k & HM & Hl).
      exists (s :: l'), k. split.
      * unfold mbind, M_bind, mret, M_ret. by rewrite HM.
      * constructor; [|done]. unfold appendedAt. by rewrite decide_False.
Qed.

Lemma addMessage_at cid text sender orig w :
  ∃ next k,
    addMessageToCurrentSession now cid text sender orig w
      = (Normal tt, with_sessions next (with_ticks (k + ticks w) w))
    ∧ Forall2 (appendedAt now cid text sender orig (ticks w) (k + ticks w))
        (sessions w) next.
Proof.
  destruct (mapM_updateSession_at cid text sender orig (sessions w) w)
    as (next & k & HM & Hnext).
  exists next, k. split; [|done].
  unfold addMessageToCurrentSession, mbind, M_bind, get. rewrite HM. done.
Qed.

(** X4. What an append leaves alone. The current id, the settings, the
    flags, the storage, the speech queue and the console are untouched and
    the clock only advances. The collection keeps its length and order;
    every session keeps its id and its creation time; a session with
    another id than the one aimed at is not changed at all, and one with
    that id gets as update time a reading taken during the append. *)
Theorem append_leaves_the_rest cid text sender orig w :
  let w' := exec (addMessageToCurrentSession now cid text sender orig) w in
  currentSessionId w' = currentSessionId w
  ∧ settings w' = settings w ∧ isLoading w' = isLoading w
  ∧ isSettingsOpen w' = isSettingsOpen w ∧ isHistoryOpen w' = isHistoryOpen w
  ∧ localStorage w' = localStorage w ∧ spoken w' = spoken w
  ∧ console w' = console w
  ∧ (ticks w ≤ ticks w')%nat
  ∧ length (sessions w') = length (sessions w)
  ∧ (∀ i s, sessions w !! i = Some s →
       ∃ s', sessions w' !! i = Some s'
         ∧ ChatSession.id s' = ChatSession.id s
         ∧ ChatSession.createdAt s' = ChatSession.createdAt s
         ∧ (ChatSession.id s ≠ cid → s' = s)
         ∧ (ChatSession.id s = cid →
            ∃ k, (ticks w ≤ k < ticks w')%nat ∧ ChatSession.updatedAt s' = now k)).
Proof.
  intros w'. subst w'.
  destruct (addMessage_at cid text sender orig w) as (next & k & HM & Hnext).
  unfold exec. rewrite HM. cbn. split_and!; try done; [lia|..].
  - symmetry. by eapply Forall2_length.
  - intros i s Hi.
    destruct (Forall2_lookup_l _ _ _ _ _ Hnext Hi) as (s' & Hs' & Happ).
    exists s'. split; [done|]. unfold appendedAt in Happ.
    destruct (decide (ChatSession.id s = cid)) as [Heq|Hne].
    + destruct Happ as (j & Hj & ->). cbn. split_and!; [done..|].
      intros _. exists (S (S j)). split; [lia|done].
    + subst s'. done.
Qed.

Lemma lit_length (x : string) : length (lit x) = String.length x.
Proof.
  unfold lit. rewrite length_fmap. induction x as [|a x IH]; cbn; [done|].
  by rewrite IH.
Qed.

(** X5. The title that the first message of a session, sent by the user,
    gives to the session has at most 33 code units and agrees with the text
    on the first 30; no append makes a title longer than 33 code units
    unless it already was. *)
Theorem derived_title_is_short cid text sender orig w i s :
  sessions w !! i = Some s →
  ∃ s',
    sessions (exec (addMessageToCurrentSession now cid text sender orig) w) !! i
      = Some s'
    ∧ (length (ChatSession.title s') ≤ Nat.max 33 (length (ChatSession.title s)))%nat
    ∧ (ChatSession.id s = cid → ChatSession.messages s = [] → sender = USER →
       (length (ChatSession.title s') ≤ 33)%nat
       ∧ take 30 (ChatSession.title s') = take 30 text).
Proof.
  intros Hi.
  destruct (addMessage_lookup now cid text sender orig w i s Hi) as (s' & Hs' & Happ).
  exists s'. split; [done|]. unfold appended in Happ.
  assert (length (take 30 text ++ lit "...") ≤ 33)%nat as Hlong.
  { rewrite length_app, length_take, lit_length.
    change (String.length "...") with 3%nat. lia. }
  destruct (decide (ChatSession.id s = cid)) as [Heq|Hne].
  - destruct Happ as (m & u & _ & _ & _ & ->). cbn [ChatSession.title]. split.
    + destruct (_ && _); [|lia]. case_bool_decide; lia.
    + intros _ Hm Hu. rewrite !bool_decide_eq_true_2 by done. cbn [andb].
      destruct (bool_decide (length text ≤ 30)%nat) eqn:Hlen.
      { apply bool_decide_eq_true in Hlen. split; [lia|done]. }
      apply bool_decide_eq_false in Hlen. split; [done|].
      rewrite take_app_le by (rewrite length_take; lia).
      by rewrite take_take, Nat.min_id.
  - subst s'. split; [lia|done].
Qed.

(** ** What the chat shows *)

Lemma appended_id cid text sender orig s s' :
  appended cid text sender orig s s' → ChatSession.id s' = ChatSession.id s.
Proof.
  unfold appended. destruct (decide _); [|by intros ->].
  by intros (m & u & _ & _ & _ & ->).
Qed.

Lemma find_appended cid text sender orig c l l' :
  Forall2 (appended cid text sender orig) l l' →
  match List.find (λ s, bool_decide (ChatSession.id s = c)) l with
  | Some s =>
      ∃ s', List.find (λ s, bool_decide (ChatSession.id s = c)) l' = Some s'
            ∧ appended cid text sender orig s s'
  | None => List.find (λ s, bool_decide (ChatSession.id s = c)) l' = None
  end.
Proof.
  induction 1 as [|s s' l l' Hs Hl IH]; [done|]. cbn.
  rewrite (appended_id _ _ _ _ _ _ Hs).
  case_bool_decide; [by exists s'|exact IH].
Qed.

Lemma addMessage_sessions cid text sender orig w :
  Forall2 (appended cid text sender orig) (sessions w)
    (sessions (exec (addMessageToCurrentSession now cid text sender orig) w)).
Proof.
  destruct (addMessage_spec now cid text sender orig w) as (next & k & HM & Hnext).
  unfold exec. by rewrite HM.
Qed.

(** The session shown after an append aimed at the current id. *)
Lemma addMessage_shown text sender orig w w0 :
  sessions w0 = sessions w →
  currentSessionId w0 = currentSessionId w →
  let w' := exec (addMessageToCurrentSession now (currentSessionId w) text sender
                    orig) w0 in
  match currentSession w with
  | Some s =>
      ∃ s' m, currentSession w' = Some s'
        ∧ ChatSession.messages s' = ChatSession.messages s ++ [m]
        ∧ Message.text m = text ∧ Message.sender m = sender
        ∧ Message.originalText m = orig
  | None => currentSession w' = None
  end.
Proof.
  intros Hs Hc w'.
  pose proof (addMessage_sessions (currentSessionId w) text sender orig w0) as Hall.
  apply (find_appended _ _ _ _ (currentSessionId w)) in Hall.
  destruct (addMessage_frame now (currentSessionId w) text sender orig w0)
    as (Hcur & _).
  unfold currentSession. fold w' in Hall, Hcur. rewrite Hcur, Hc.
  rewrite Hs in Hall.
  destruct (List.find _ (sessions w)) as [s|] eqn:Hfind; [|done].
  destruct Hall as (s' & Hs' & Happ). unfold appended in Happ.
  apply find_some in Hfind as [_ Hid%bool_decide_eq_true].
  rewrite decide_True in Happ by done.
  destruct Happ as (m & u & ? & ? & ? & ->). by eexists _, m.
Qed.

(** X6. After a send that nothing interrupts, the chat shows the messages
    it showed before, followed by the message of the user and then by the
    answer: the translation, with the input as original text, or the fixed
    error text when the translation failed. When the current id names no
    session the chat stays empty. *)
Theorem send_shows_in_chat translateText text w :
  trim text ≠ [] →
  let w' := exec (handleSendMessage now translateText (mret tt) text) w in
  (currentSession w = None → messages w' = [])
  ∧ (is_Some (currentSession w) →
     ∃ user ai,
       messages w' = messages w ++ [user; ai]
       ∧ Message.text user = text ∧ Message.sender user = USER
       ∧ Message.originalText user = None
       ∧ Message.sender ai = AI
       ∧ match translateText text with
         | Resolved translated =>
             Message.text ai = translated ∧ Message.originalText ai = Some text
         | Rejected _ =>
             Message.text ai = fallbackText ∧ Message.originalText ai = None
         end).
Proof.
  intros Hne w'.
  set (cid := currentSessionId w).
  set (w1 := exec (addMessageToCurrentSession now cid text USER None) w).
  pose proof (addMessage_shown text USER None w w eq_refl eq_refl) as H1.
  cbv zeta in H1. fold cid w1 in H1.
  destruct (addMessage_frame now cid text USER None w) as (Hc1 & _). fold w1 in Hc1.
  assert (∃ reply orig w0,
            sessions w0 = sessions w1 ∧ currentSessionId w0 = currentSessionId w1
            ∧ currentSession w' = currentSession
                (exec (addMessageToCurrentSession now cid reply AI orig) w0)
            ∧ match translateText text with
              | Resolved translated => reply = translated ∧ orig = Some text
              | Rejected _ => reply = fallbackText ∧ orig = None
              end) as (reply & orig & w0 & Hs0 & Hc0 & Hw' & Hreply).
  { subst w'. unfold exec at 1.
    destruct (translateText text) as [translated|e] eqn:Hr.
    - rewrite (handleSend_resolved now _ _ _ _ _ Hne Hr), atAwait_run.
      exists translated, (Some text), (with_isLoading true w1).
      split_and!; try done. unfold currentSession. by destruct (truthy _).
    - rewrite (handleSend_rejected now _ _ _ _ _ Hne Hr), atAwait_run.
      exists fallbackText, None,
        (exec (console_error e) (with_isLoading true w1)).
      by split_and!. }
  pose proof (addMessage_shown reply AI orig w1 w0 Hs0 Hc0) as H2.
  cbv zeta in H2. rewrite Hc1 in H2. fold cid in H2.
  unfold messages. rewrite Hw'. split.
  - intros Hnone. rewrite Hnone in H1. rewrite H1 in H2. by rewrite H2.
  - intros [s Hs]. rewrite Hs in H1. destruct H1 as (s1 & user & Hs1 & Hm1 & ?).
    rewrite Hs1 in H2. destruct H2 as (s2 & ai & Hs2 & Hm2 & Hai).
    exists user, ai. rewrite Hs2, Hs, Hm2, Hm1, <-(assoc (++)). cbn.
    split; [done|]. destruct_and!. split_and!; try done.
    destruct (translateText text); destruct_and!; by subst.
Qed.

(** ** New chat, selection, clearing *)

(** X7. A new chat puts one fresh session, empty and titled New
    Conversation, in front of the prior sessions, which stay as they were
    and in their order; it becomes the session shown, so the chat shows no
    message, also when an older session carries the same id. Nothing else
    changes but the clock. *)
Theorem new_chat_is_shown_empty w :
  let w' := exec (createNewSession now) w in
  result (createNewSession now) w = Normal tt
  ∧ (∃ fresh, sessions w' = fresh :: sessions w
       ∧ currentSession w' = Some fresh
       ∧ currentSessionId w' = ChatSession.id fresh
       ∧ ChatSession.id fresh = toString (now (ticks w))
       ∧ ChatSession.title fresh = lit "New Conversation"
       ∧ ChatSession.messages fresh = [])
  ∧ messages w' = []
  ∧ w' = with_currentSessionId (currentSessionId w')
           (with_sessions (sessions w') (with_ticks (3 + ticks w) w)).
Proof.
  intros w'. subst w'. unfold result, exec, messages, currentSession.
  rewrite createNewSession_run. cbn.
  rewrite bool_decide_eq_true_2 by done. split_and!; try done.
  by exists (freshSession now (ticks w)).
Qed.

Lemma find_first_listed (c : jsstring) (l : list ChatSession.t) :
  (∃ s, s ∈ l ∧ ChatSession.id s = c) →
  ∃ s before after,
    List.find (λ s, bool_decide (ChatSession.id s = c)) l = Some s
    ∧ ChatSession.id s = c
    ∧ l = before ++ s :: after
    ∧ Forall (λ x, ChatSession.id x ≠ c) before.
Proof.
  induction l as [|x l IH]; intros (s & Hs & Hid).
  - by apply elem_of_nil in Hs.
  - cbn. destruct (decide (ChatSession.id x = c)) as [Hx|Hx].
    + rewrite bool_decide_eq_true_2 by done. by exists x, [], l.
    + rewrite bool_decide_eq_false_2 by done.
      apply elem_of_cons in Hs as [->|Hs]; [done|].
      destruct IH as (y & before & after & ? & ? & -> & ?); [by exists s|].
      exists y, (x :: before), after. split_and!; try done. by constructor.
Qed.

(** X8. Selecting a session that the history lists makes its id current
    and closes the history; the collection is not touched. The chat then
    shows the messages of the first session, in the order of the
    collection, that carries the id. *)
Theorem select_shows_session id w :
  (∃ s, s ∈ sessions w ∧ ChatSession.id s = id) →
  let w' := exec (onSelectSession id) w in
  currentSessionId w' = id
  ∧ isHistoryOpen w' = false
  ∧ sessions w' = sessions w
  ∧ currentIsListed w'
  ∧ ∃ s before after,
      currentSession w' = Some s
      ∧ messages w' = ChatSession.messages s
      ∧ ChatSession.id s = id
      ∧ sessions w = before ++ s :: after
      ∧ Forall (λ x, ChatSession.id x ≠ id) before.
Proof.
  intros Hlisted w'. subst w'. split_and!; try done.
  destruct (find_first_listed id (sessions w) Hlisted)
    as (s & before & after & Hfind & ? & ? & ?).
  exists s, before, after.
  assert (currentSession (exec (onSelectSession id) w) = Some s) as Hshown
    by exact Hfind.
  unfold messages. by rewrite Hshown.
Qed.

(** X9. Clearing the history, once confirmed, removes the stored sessions
    from the storage, closes the settings dialog and leaves exactly one
    session, fresh, empty and current, whatever the collection held; the
    settings, the loading flag, the speech queue and the console are not
    touched. Declined, it changes nothing. *)
Theorem clear_history_starts_over window_confirm w :
  let w' := exec (clearHistory now window_confirm) w in
  (window_confirm (lit "Clear ALL chat history?") = false → w' = w)
  ∧ (window_confirm (lit "Clear ALL chat history?") = true →
     (∃ fresh, sessions w' = [fresh]
        ∧ currentSessionId w' = ChatSession.id fresh
        ∧ ChatSession.title fresh = lit "New Conversation"
        ∧ ChatSession.messages fresh = [])
     ∧ messages w' = []
     ∧ localStorage w' !! SESSIONS_STORAGE_KEY = None
     ∧ (∀ key, key ≠ SESSIONS_STORAGE_KEY →
               localStorage w' !! key = localStorage w !! key)
     ∧ isSettingsOpen w' = false
     ∧ settings w' = settings w ∧ isLoading w' = isLoading w
     ∧ spoken w' = spoken w ∧ console w' = console w).
Proof.
  intros w'. subst w'. unfold exec. split.
  - intros Hno. by rewrite clearHistory_declined.
  - intros Hyes. rewrite clearHistory_run by done.
    unfold messages, currentSession. cbn.
    rewrite bool_decide_eq_true_2 by done. split_and!; try done.
    + by exists (freshSession now (ticks w)).
    + apply lookup_delete_eq.
    + intros key Hkey. by apply lookup_delete_ne.
Qed.

(** X10. Deleting an id that no session carries changes nothing when the
    current id names a session of the collection, confirmed or not; and a
    deletion that the user declines changes nothing in any case. *)
Theorem delete_unknown_or_declined window_confirm id w :
  (window_confirm (lit "Delete this conversation?") = false
   ∨ (currentIsListed w ∧ ∀ s, s ∈ sessions w → ChatSession.id s ≠ id)) →
  deleteSession now window_confirm id w = (Normal tt, w).
Proof.
  intros [Hno|[(c & Hc & Hcur) Hnone]].
  - by apply deleteSession_declined.
  - destruct (window_confirm (lit "Delete this conversation?")) eqn:Hyes;
      [|by apply deleteSession_declined].
    rewrite deleteSession_run by done. cbn.
    assert (filter (λ s, ChatSession.id s ≠ id) (sessions w) = sessions w) as ->.
    { clear Hc. induction (sessions w) as [|x l IH]; [done|].
      rewrite filter_cons, decide_True by (apply Hnone, list_elem_of_here).
      f_equal. apply IH. intros s Hs. by apply Hnone, list_elem_of_further. }
    rewrite bool_decide_eq_false_2.
    + by rewrite with_sessions_same.
    + intros Heq. apply (Hnone c Hc). congruence.
Qed.

(** ** Loading and storing *)

Lemma loadSessions_run w :
  loadSessions now JSON_parse_sessions w
  = match localStorage w !! SESSIONS_STORAGE_KEY with
    | Some ((_ :: _) as saved) =>
        match JSON_parse_sessions saved with
        | Normal (Some ((first :: _) as parsed)) =>
            (Normal tt,
             with_currentSessionId (ChatSession.id first) (with_sessions parsed w))
        | Normal _ => createNewSession now w
        | Throw e => createNewSession now (with_console (console w ++ [e]) w)
        end
    | _ => createNewSession now w
    end.
Proof.
  unfold loadSessions, mbind, M_bind, localStorage_getItem, get.
  destruct (localStorage w !! SESSIONS_STORAGE_KEY) as [[|c saved]|]; [done| |done].
  unfold try_catch, try_catch_finally, mbind, M_bind, complete.
  destruct (JSON_parse_sessions (c :: saved)) as [[[|first parsed]|]|e]; cbn.
  - by rewrite createNewSession_run.
  - done.
  - by rewrite createNewSession_run.
  - by rewrite createNewSession_run.
Qed.

(** X11. The sessions at mount. A stored, parsable, non-empty list is
    restored as it is, without a clock reading, and its first session
    becomes current, whichever was current when the list was stored. In
    every other case (nothing stored, an empty text, a text that does not
    parse, a null or an empty list) the component starts with exactly one
    fresh session, empty and titled New Conversation; a parse error is
    logged on the console. *)
Theorem sessions_at_mount storage :
  let w' := exec (loadSessions now JSON_parse_sessions) (initialWorld storage) in
  result (loadSessions now JSON_parse_sessions) (initialWorld storage) = Normal tt
  ∧ (∀ saved first rest,
       storage !! SESSIONS_STORAGE_KEY = Some saved → saved ≠ [] →
       JSON_parse_sessions saved = Normal (Some (first :: rest)) →
       sessions w' = first :: rest
       ∧ currentSessionId w' = ChatSession.id first
       ∧ messages w' = ChatSession.messages first
       ∧ ticks w' = 0%nat)
  ∧ (storage !! SESSIONS_STORAGE_KEY = None
     ∨ storage !! SESSIONS_STORAGE_KEY = Some []
     ∨ (∃ saved, storage !! SESSIONS_STORAGE_KEY = Some saved
          ∧ (JSON_parse_sessions saved = Normal None
             ∨ JSON_parse_sessions saved = Normal (Some [])
             ∨ ∃ e, JSON_parse_sessions saved = Throw e)) →
     sessions w' = [freshSession now 0]
     ∧ currentSessionId w' = toString (now 0)
     ∧ messages w' = [])
  ∧ (∀ saved e,
       storage !! SESSIONS_STORAGE_KEY = Some saved → saved ≠ [] →
       JSON_parse_sessions saved = Throw e → console w' = [e]).
Proof.
  intros w'. subst w'. unfold result, exec, messages, currentSession.
  rewrite loadSessions_run. cbn [initialWorld localStorage].
  split_and!.
  - destruct (storage !! SESSIONS_STORAGE_KEY) as [[|c saved]|]; [done| |done].
    by destruct (JSON_parse_sessions (c :: saved)) as [[[|first parsed]|]|e].
  - intros saved first rest -> Hne Hparse. destruct saved; [done|].
    rewrite Hparse. cbn. by rewrite bool_decide_eq_true_2.
  - assert (∀ w0, sessions w0 = [] →
        sessions (createNewSession now w0).2 = [freshSession now (ticks w0)]
        ∧ currentSessionId (createNewSession now w0).2 = toString (now (ticks w0))
        ∧ match List.find
                  (λ s, bool_decide (ChatSession.id s
                          = currentSessionId (createNewSession now w0).2))
                  (sessions (createNewSession now w0).2) with
          | Some s => ChatSession.messages s
          | None => []
          end = []) as Hfresh.
    { intros w0 Hw0. rewrite createNewSession_run. cbn. rewrite Hw0.
      by rewrite bool_decide_eq_true_2. }
    intros [->|[->|(saved & -> & Hparse)]]; [by apply Hfresh..|].
    destruct saved as [|c saved]; [by apply Hfresh|].
    destruct Hparse as [->|[->|[e ->]]]; by apply Hfresh.
  - intros saved e -> Hne Hparse. destruct saved; [done|]. by rewrite Hparse.
Qed.

Lemma persistSessions_run w :
  persistSessions JSON_stringify_sessions w
  = (Normal tt,
     with_localStorage
       (<[SESSIONS_STORAGE_KEY := JSON_stringify_sessions (sessions w)]>
          (localStorage w)) w).
Proof.
  unfold persistSessions, mbind, M_bind, get.
  rewrite bool_decide_eq_true_2 by lia. done.
Qed.

(** X12. Storing and reloading the sessions. The effect that follows a
    change of the collection always writes it, whole, under the sessions
    key and touches no other key. If the stored text is not empty and
    parses back to the list, a later mount on that storage restores the
    collection when it is not empty, with its first session current. *)
Theorem sessions_survive_reload w first rest :
  sessions w = first :: rest →
  JSON_stringify_sessions (sessions w) ≠ [] →
  JSON_parse_sessions (JSON_stringify_sessions (sessions w))
    = Normal (Some (sessions w)) →
  let stored := localStorage (exec (persistSessions JSON_stringify_sessions) w) in
  let w' := exec (loadSessions now JSON_parse_sessions) (initialWorld stored) in
  stored !! SESSIONS_STORAGE_KEY = Some (JSON_stringify_sessions (sessions w))
  ∧ (∀ key, key ≠ SESSIONS_STORAGE_KEY → stored !! key = localStorage w !! key)
  ∧ sessions w' = sessions w
  ∧ currentSessionId w' = ChatSession.id first
  ∧ messages w' = ChatSession.messages first.
Proof.
  intros Hw Hne Hparse stored w'.
  assert (stored = <[SESSIONS_STORAGE_KEY := JSON_stringify_sessions (sessions w)]>
                     (localStorage w)) as Hstored.
  { subst stored. unfold exec. by rewrite persistSessions_run. }
  assert (stored !! SESSIONS_STORAGE_KEY
          = Some (JSON_stringify_sessions (sessions w))) as Hkey.
  { rewrite Hstored. apply lookup_insert_eq. }
  assert (w' = with_currentSessionId (ChatSession.id first)
                 (with_sessions (first :: rest) (initialWorld stored))) as ->.
  { subst w'. unfold exec. rewrite loadSessions_run.
    cbn [initialWorld localStorage]. rewrite Hkey.
    destruct (JSON_stringify_sessions (sessions w)) as [|c saved] eqn:Hs; [done|].
    by rewrite Hparse, Hw. }
  split_and!; try done.
  - intros key Hne'. rewrite Hstored. by apply lookup_insert_ne.
  - unfold messages, currentSession. cbn. by rewrite bool_decide_eq_true_2.
Qed.

(** X13. Storing and reloading the settings. The effect that follows a
    change of the settings writes them under the settings key. If the stored
    text is not empty and parses back to an object with the same fields, a
    later mount on that storage gives every field its stored value, a field
    the stored settings lack gets its default, and settings that define
    every default field come back exactly. *)
Theorem settings_survive_reload w blob :
  JSON_stringify_settings (settings w) ≠ [] →
  JSON_parse (JSON_stringify_settings (settings w)) = Normal blob →
  ownProperties blob = settings w →
  let stored := localStorage (exec (persistSettings JSON_stringify_settings) w) in
  let loaded := settings (exec (loadSettings JSON_parse) (initialWorld stored)) in
  stored !! SETTINGS_STORAGE_KEY = Some (JSON_stringify_settings (settings w))
  ∧ (∀ key, key ≠ SETTINGS_STORAGE_KEY → stored !! key = localStorage w !! key)
  ∧ (∀ k, loaded !! k = match settings w !! k with
                         | Some v => Some v
                         | None => DEFAULT_SETTINGS !! k
                         end)
  ∧ ((∀ k, is_Some (DEFAULT_SETTINGS !! k) → is_Some (settings w !! k)) →
     loaded = settings w).
Proof.
  intros Hne Hparse Hblob stored loaded.
  assert (stored = <[SETTINGS_STORAGE_KEY := JSON_stringify_settings (settings w)]>
                     (localStorage w)) as Hstored by done.
  assert (stored !! SETTINGS_STORAGE_KEY
          = Some (JSON_stringify_settings (settings w))) as Hkey.
  { rewrite Hstored. apply lookup_insert_eq. }
  assert (loaded = spread DEFAULT_SETTINGS blob) as ->.
  { subst loaded. rewrite loadSettings_run. cbn [initialWorld localStorage].
    rewrite Hkey.
    destruct (JSON_stringify_settings (settings w)) as [|c saved] eqn:Hs; [done|].
    by rewrite Hparse. }
  assert (∀ k, spread DEFAULT_SETTINGS blob !! k
               = match settings w !! k with
                 | Some v => Some v
                 | None => DEFAULT_SETTINGS !! k
                 end) as Hlookup.
  { intros k. by rewrite spread_lookup, Hblob. }
  split_and!; try done.
  - intros key Hne'. rewrite Hstored. by apply lookup_insert_ne.
  - intros Hfull. apply map_eq. intros k. rewrite Hlookup.
    destruct (settings w !! k) as [v|] eqn:Hk; [done|].
    destruct (DEFAULT_SETTINGS !! k) as [d|] eqn:Hd; [|done].
    destruct (Hfull k) as [v Hv]; [by rewrite Hd|]. congruence.
Qed.

Lemma updateSettings_run ns w :
  updateSettings ns w = (Normal tt, with_settings (ns ∪ settings w) w).
Proof. reflexivity. Qed.

(** X14. A change of settings overrides the fields it names and keeps
    every other field; it touches nothing but the settings; and two changes
    in a row are one change by the second laid over the first. *)
Theorem update_settings_merges ns w :
  let w' := exec (updateSettings ns) w in
  (∀ k v, ns !! k = Some v → settings w' !! k = Some v)
  ∧ (∀ k, ns !! k = None → settings w' !! k = settings w !! k)
  ∧ w' = with_settings (settings w') w
  ∧ ∀ ns', exec (updateSettings ns') w' = exec (updateSettings (ns' ∪ ns)) w.
Proof.
  intros w'. subst w'. unfold exec. rewrite updateSettings_run. cbn. split_and!.
  - intros k v Hk. by apply lookup_union_Some_l.
  - intros k Hk. by apply lookup_union_r.
  - done.
  - intros ns'. rewrite !updateSettings_run. cbn.
    by rewrite (assoc_L (∪)).
Qed.

Lemma updateSettingsAll_populated changes w :
  (∀ k, is_Some (DEFAULT_SETTINGS !! k) → is_Some (settings w !! k)) →
  ∀ k, is_Some (DEFAULT_SETTINGS !! k) →
       is_Some (settings (exec (updateSettingsAll changes) w) !! k).
Proof.
  revert w. induction changes as [|ns changes IH]; intros w Hw; [done|].
  cbn [updateSettingsAll]. unfold exec.
  rewrite exec_then by done. apply IH.
  intros k Hk. unfold exec. rewrite updateSettings_run. cbn.
  destruct (Hw k Hk) as [v Hv]. rewrite lookup_union.
  rewrite Hv. by destruct (ns !! k).
Qed.

(** X15. Every field of the default settings is defined at all times:
    after the load at mount, whatever the storage holds, and after any
    number of changes in the settings dialog. *)
Theorem settings_stay_populated storage changes :
  let w := exec (loadSettings JSON_parse;; updateSettingsAll changes)
             (initialWorld storage) in
  ∀ k, is_Some (DEFAULT_SETTINGS !! k) → is_Some (settings w !! k).
Proof.
  intros w. subst w. unfold exec.
  rewrite exec_then by apply loadSettings_normal.
  apply updateSettingsAll_populated.
  intros k Hk. rewrite loadSettings_run. cbn [initialWorld localStorage settings].
  destruct (storage !! SETTINGS_STORAGE_KEY) as [[|c saved]|]; [done| |done].
  destruct (JSON_parse (c :: saved)); [|done].
  rewrite spread_lookup. by destruct (ownProperties a !! k).
Qed.

(** ** Ids and the clock *)

Lemma lit_inj (x y : string) : lit x = lit y → x = y.
Proof.
  unfold lit. intros H.
  rewrite <-(string_of_list_ascii_of_string x), <-(string_of_list_ascii_of_string y).
  f_equal. revert H. generalize (list_ascii_of_string x) (list_ascii_of_string y).
  induction l as [|a l IH]; intros [|b l']; cbn; try done.
  intros [= Hab Hl]. f_equal; [|by apply IH].
  by rewrite <-(ascii_N_embedding a), <-(ascii_N_embedding b), Hab.
Qed.

Lemma to_int_proper (z : Z) : Z.to_int z ≠ Decimal.Pos Decimal.Nil
                              ∧ Z.to_int z ≠ Decimal.Neg Decimal.Nil.
Proof.
  destruct z as [|p|p]; cbn; split; try done; intros [= H];
    by apply (DecimalPos.Unsigned.to_uint_nonnil p).
Qed.

(** Different numbers have different numerals. *)
Lemma toString_inj (a b : Z) : toString a = toString b → a = b.
Proof.
  unfold toString. intros H%lit_inj.
  apply (f_equal NilZero.int_of_string) in H.
  destruct (to_int_proper a), (to_int_proper b).
  rewrite !NilZero.isi in H by done.
  injection H as H. apply (f_equal Z.of_int) in H.
  by rewrite !DecimalZ.of_to in H.
Qed.

Lemma stamped_nil n : stamped now n [].
Proof. split; constructor. Qed.

Lemma stamped_mono n n' ids :
  (n ≤ n')%nat → stamped now n ids → stamped now n' ids.
Proof.
  intros Hn [Hnd Hall]. split; [done|].
  eapply Forall_impl; [exact Hall|]. intros i (k & ? & ->). exists k. split; [lia|done].
Qed.

Lemma Forall_of_sublist {A} (P : A → Prop) (l1 l2 : list A) :
  l1 `sublist_of` l2 → Forall P l2 → Forall P l1.
Proof.
  rewrite !Forall_forall. intros Hsub Hall x Hx.
  by eapply Hall, elem_of_sublist.
Qed.

Lemma stamped_sublist n ids ids' :
  ids' `sublist_of` ids → stamped now n ids → stamped now n ids'.
Proof.
  intros Hsub [Hnd Hall]. split; [by eapply sublist_NoDup|].
  by eapply Forall_of_sublist.
Qed.

(** The numeral of a reading taken at tick [n] or later is none of the ids
    stamped before [n], when the clock never repeats. *)
Lemma stamped_fresh n k ids :
  neverRepeats now → (n ≤ k)%nat → stamped now n ids → toString (now k) ∉ ids.
Proof.
  intros Hclock Hk [_ Hall] Hin.
  rewrite Forall_forall in Hall. destruct (Hall _ Hin) as (j & Hj & Heq).
  apply toString_inj, Hclock in Heq. lia.
Qed.

Lemma stamped_cons n n' k ids :
  neverRepeats now → (n ≤ k < n')%nat → stamped now n ids →
  stamped now n' (toString (now k) :: ids).
Proof.
  intros Hclock Hk Hids. split.
  - constructor; [apply (stamped_fresh n k ids); [done|lia|done]|apply Hids].
  - constructor; [exists k; split; [lia|done]|].
    apply (stamped_mono n n'); [lia|done].
Qed.

Lemma stamped_snoc n n' k ids :
  neverRepeats now → (n ≤ k < n')%nat → stamped now n ids →
  stamped now n' (ids ++ [toString (now k)]).
Proof.
  intros Hclock Hk Hids. split.
  - apply NoDup_app. split_and!; [apply Hids| |apply NoDup_singleton].
    intros i Hi ->%list_elem_of_singleton.
    revert Hi. apply (stamped_fresh n k ids); [done|lia|done].
  - apply Forall_app. split; [by apply (stamped_mono n n'); [lia|]|].
    constructor; [|done]. exists k. split; [lia|done].
Qed.

Lemma stampedSessions_mono n n' l :
  (n ≤ n')%nat → stampedSessions now n l → stampedSessions now n' l.
Proof.
  intros Hn [Hids Hmsgs]. split; [by eapply stamped_mono|].
  eapply Forall_impl; [exact Hmsgs|]. intros s. by apply stamped_mono.
Qed.

Lemma stampedSessions_filter n (P : ChatSession.t → Prop)
    `{!∀ s, Decision (P s)} l :
  stampedSessions now n l → stampedSessions now n (filter P l).
Proof.
  intros [Hids Hmsgs]. split.
  - eapply stamped_sublist; [|exact Hids]. apply fmap_sublist, sublist_filter.
  - eapply Forall_of_sublist; [apply sublist_filter|exact Hmsgs].
Qed.

Lemma stampedSessions_fresh n k l :
  neverRepeats now → (n ≤ k)%nat →
  stampedSessions now n l → stampedSessions now (3 + k) (freshSession now k :: l).
Proof.
  intros Hclock Hk [Hids Hmsgs]. split.
  - cbn. apply (stamped_cons n); [done|lia|done].
  - constructor; [apply stamped_nil|].
    eapply Forall_impl; [exact Hmsgs|]. intros s. apply stamped_mono. lia.
Qed.

Lemma appendedAt_id cid text sender orig lo hi s s' :
  appendedAt now cid text sender orig lo hi s s' →
  ChatSession.id s' = ChatSession.id s.
Proof.
  unfold appendedAt. destruct (decide _); [|by intros ->].
  by intros (k & _ & ->).
Qed.

Lemma stampedSessions_appended cid text sender orig lo hi l l' :
  neverRepeats now → (lo ≤ hi)%nat →
  Forall2 (appendedAt now cid text sender orig lo hi) l l' →
  stampedSessions now lo l → stampedSessions now hi l'.
Proof.
  intros Hclock Hhi Hall [Hids Hmsgs]. split.
  - assert (ChatSession.id <$> l' = ChatSession.id <$> l) as ->.
    { clear Hids Hmsgs. induction Hall as [|s s' l l' Hs _ IH]; [done|]. cbn.
      by rewrite (appendedAt_id _ _ _ _ _ _ _ _ Hs), IH. }
    by apply (stamped_mono lo hi).
  - clear Hids. revert Hmsgs.
    induction Hall as [|s s' l l' Hs _ IH]; [done|].
    intros [Hm Hrest]%Forall_cons.
    constructor; [|by apply IH]. unfold appendedAt in Hs.
    destruct (decide _).
    + destruct Hs as (k & Hk & ->). cbn. rewrite fmap_app. cbn.
      apply (stamped_snoc lo); [done|lia|done].
    + subst s'. by apply (stamped_mono lo hi).
Qed.

(** ** What holds after every action *)

Lemma act_normal a w : result (act now a) w = Normal tt.
Proof.
  unfold result. destruct a as [|id c|c|id|cid text sender orig]; cbn [act].
  - by rewrite createNewSession_run.
  - destruct c; [by rewrite deleteSession_run|by rewrite deleteSession_declined].
  - destruct c; [by rewrite clearHistory_run|by rewrite clearHistory_declined].
  - done.
  - apply addMessage_normal.
Qed.

Lemma actAll_cons a actions w :
  exec (actAll now (a :: actions)) w = exec (actAll now actions) (exec (act now a) w).
Proof.
  cbn [actAll]. unfold exec at 1. by rewrite exec_then by apply act_normal.
Qed.

Lemma act_listed a w :
  selectable a w → currentIsListed w → currentIsListed (exec (act now a) w).
Proof.
  destruct a as [|id c|c|id|cid text sender orig]; cbn [act selectable]; intros Hsel Hw.
  - apply createNewSession_listed.
  - by apply deleteSession_listed.
  - by apply clearHistory_listed.
  - exact Hsel.
  - destruct Hw as (s & Hs & Hid).
    apply list_elem_of_lookup in Hs as [i Hi].
    destruct (addMessage_lookup now cid text sender orig w i s Hi) as (s' & Hs' & Happ).
    exists s'. split; [by eapply list_elem_of_lookup_2|].
    rewrite (appended_id _ _ _ _ _ _ Happ), Hid.
    by destruct (addMessage_frame now cid text sender orig w) as (-> & _).
Qed.

Lemma currentIsListed_shown w : currentIsListed w → is_Some (currentSession w).
Proof.
  intros Hw. destruct (find_first_listed _ _ Hw) as (s & _ & _ & Hfind & _).
  by exists s.
Qed.

(** X16. After the load at mount and any sequence of new chats, deletions,
    clearings, appends (those of sends, at any interleaving, with any id)
    and selections of listed sessions, the current id names a session of the
    collection: the collection is not empty and the chat has a session to
    show. *)
Theorem current_session_always_exists storage actions :
  let w0 := exec (initialDataLoad now JSON_parse JSON_parse_sessions)
              (initialWorld storage) in
  allSelectable now actions w0 →
  let w := exec (actAll now actions) w0 in
  sessions w ≠ [] ∧ currentIsListed w ∧ is_Some (currentSession w).
Proof.
  intros w0 Hsel w.
  assert (currentIsListed w) as Hw.
  { subst w. assert (currentIsListed w0) as H0 by apply initialDataLoad_listed.
    clearbody w0. revert w0 Hsel H0.
    induction actions as [|a actions IH]; intros w0 Hsel H0; [done|].
    rewrite actAll_cons. destruct Hsel as [Ha Hrest].
    apply IH; [done|]. by apply act_listed. }
  split_and!; [by apply currentIsListed_nonempty|done|by apply currentIsListed_shown].
Qed.

Lemma act_untitled a w :
  Forall untitledWhenEmpty (sessions w) →
  Forall untitledWhenEmpty (sessions (exec (act now a) w)).
Proof.
  assert (untitledWhenEmpty (freshSession now (ticks w))) as Hfresh by done.
  intros Hw. unfold exec.
  destruct a as [|id c|c|id|cid text sender orig]; cbn [act].
  - rewrite createNewSession_run. by constructor.
  - destruct c; [|by rewrite deleteSession_declined].
    rewrite deleteSession_run by done. cbn.
    assert (Forall untitledWhenEmpty (filter (λ s, ChatSession.id s ≠ id) (sessions w)))
      as Hrem by (eapply Forall_of_sublist; [apply sublist_filter|done]).
    case_bool_decide; [|done].
    destruct (filter _ _); [by constructor|done].
  - destruct c; [|by rewrite clearHistory_declined].
    rewrite clearHistory_run by done. by constructor.
  - done.
  - pose proof (addMessage_sessions cid text sender orig w) as Hall.
    unfold exec in Hall. induction Hall as [|s s' l l' Hs _ IH]; [done|].
    apply Forall_cons in Hw as [Hs0 Hl]. constructor; [|by apply IH].
    unfold appended in Hs. destruct (decide _); [|by subst].
    destruct Hs as (m & u & _ & _ & _ & ->). intros Hm. cbn in Hm.
    by destruct (ChatSession.messages s).
Qed.

(** The load of the settings touches the settings and the console only. *)
Lemma loadSettings_frame w :
  let w' := exec (loadSettings JSON_parse) w in
  sessions w' = sessions w ∧ ticks w' = ticks w ∧ localStorage w' = localStorage w.
Proof.
  unfold exec, loadSettings, mbind, M_bind, localStorage_getItem, get.
  destruct (_ !! _) as [[|c saved]|]; [done| |done].
  unfold try_catch, try_catch_finally, mbind, M_bind, complete.
  by destruct (JSON_parse (c :: saved)).
Qed.

(** X17. A session that holds no message is titled New Conversation. This
    holds after the load at mount, if the stored sessions are such, and
    after any sequence of actions: only an append changes a title, and the
    session it changes holds a message afterwards. *)
Theorem empty_sessions_are_untitled storage actions :
  (∀ saved l, storage !! SESSIONS_STORAGE_KEY = Some saved →
              JSON_parse_sessions saved = Normal (Some l) →
              Forall untitledWhenEmpty l) →
  let w := exec (actAll now actions)
             (exec (initialDataLoad now JSON_parse JSON_parse_sessions)
                (initialWorld storage)) in
  ∀ s, s ∈ sessions w → ChatSession.messages s = [] →
       ChatSession.title s = lit "New Conversation".
Proof.
  intros Hstored w.
  assert (Forall untitledWhenEmpty (sessions w)) as Hw.
  { subst w.
    set (w0 := exec (initialDataLoad _ _ _) _).
    assert (Forall untitledWhenEmpty (sessions w0)) as H0.
    { subst w0. unfold initialDataLoad. unfold exec at 1.
      rewrite exec_then by apply loadSettings_normal.
      destruct (loadSettings_frame (initialWorld storage))
        as (Hnil & _ & Hsame).
      set (w1 := exec (loadSettings JSON_parse) (initialWorld storage)) in *.
      cbn in Hnil, Hsame.
      rewrite loadSessions_run.
      assert (∀ w2, sessions w2 = [] →
                Forall untitledWhenEmpty (sessions (createNewSession now w2).2))
        as Hnew.
      { intros w2 Hw2. rewrite createNewSession_run. cbn. rewrite Hw2.
        by repeat constructor. }
      rewrite Hsame.
      destruct (storage !! SESSIONS_STORAGE_KEY) as [[|c saved]|] eqn:Hkey;
        [by apply Hnew| |by apply Hnew].
      destruct (JSON_parse_sessions (c :: saved)) as [[[|first parsed]|]|e] eqn:Hp;
        [by apply Hnew| |by apply Hnew..].
      cbn. by eapply Hstored. }
    clearbody w0. revert w0 H0.
    induction actions as [|a actions IH]; intros w0 H0; [done|].
    rewrite actAll_cons. by apply IH, act_untitled. }
  intros s Hs. rewrite Forall_forall in Hw. by apply Hw.
Qed.

Lemma act_stamped a w :
  neverRepeats now →
  stampedSessions now (ticks w) (sessions w) →
  stampedSessions now (ticks (exec (act now a) w)) (sessions (exec (act now a) w)).
Proof.
  intros Hclock Hw.
  assert (stampedSessions now (3 + ticks w) [freshSession now (ticks w)]) as Hone.
  { apply (stampedSessions_fresh 0 (ticks w) []); [done|lia|].
    split; [apply stamped_nil|constructor]. }
  unfold exec. destruct a as [|id c|c|id|cid text sender orig]; cbn [act].
  - rewrite createNewSession_run. cbn.
    by apply (stampedSessions_fresh (ticks w)).
  - destruct c; [|by rewrite deleteSession_declined].
    rewrite deleteSession_run by done. cbn.
    pose proof (stampedSessions_filter (ticks w) (λ s, ChatSession.id s ≠ id)
                  (sessions w) Hw) as Hrem.
    case_bool_decide; [|done].
    by destruct (filter _ _).
  - destruct c; [|by rewrite clearHistory_declined].
    by rewrite clearHistory_run.
  - done.
  - destruct (addMessage_at cid text sender orig w) as (next & k & -> & Hnext).
    cbn. eapply stampedSessions_appended; [done| |exact Hnext|done]. lia.
Qed.

Lemma actAll_stamped actions w :
  neverRepeats now →
  stampedSessions now (ticks w) (sessions w) →
  stampedSessions now (ticks (exec (actAll now actions) w))
    (sessions (exec (actAll now actions) w)).
Proof.
  intros Hclock. revert w.
  induction actions as [|a actions IH]; intros w Hw; [done|].
  rewrite actAll_cons. by apply IH, act_stamped.
Qed.

(** A mount with no stored sessions leaves one session, stamped. *)
Lemma fresh_mount_stamped storage :
  neverRepeats now →
  storage !! SESSIONS_STORAGE_KEY = None →
  let w0 := exec (initialDataLoad now JSON_parse JSON_parse_sessions)
              (initialWorld storage) in
  stampedSessions now (ticks w0) (sessions w0).
Proof.
  intros Hclock Hnone w0. subst w0. unfold initialDataLoad. unfold exec at 1 2.
  rewrite exec_then by apply loadSettings_normal.
  destruct (loadSettings_frame (initialWorld storage))
    as (Hnil & Hticks & Hsame).
  set (w1 := exec (loadSettings JSON_parse) (initialWorld storage)) in *.
  cbn in Hnil, Hticks, Hsame.
  rewrite loadSessions_run, Hsame, Hnone, createNewSession_run. cbn.
  rewrite Hnil, Hticks.
  apply (stampedSessions_fresh 0 0 []); [done|lia|].
  split; [apply stamped_nil|constructor].
Qed.

(** X18. With a clock that never returns the same reading twice, and no
    sessions stored at mount, no two sessions of the collection ever carry
    the same id, whatever the actions: an id names one session, and an
    append aimed at it reaches that session only. *)
Theorem session_ids_differ storage actions :
  neverRepeats now →
  storage !! SESSIONS_STORAGE_KEY = None →
  let w := exec (actAll now actions)
             (exec (initialDataLoad now JSON_parse JSON_parse_sessions)
                (initialWorld storage)) in
  ∀ i j s t,
    sessions w !! i = Some s → sessions w !! j = Some t →
    ChatSession.id s = ChatSession.id t → i = j.
Proof.
  intros Hclock Hnone w i j s t Hi Hj Hid.
  destruct (actAll_stamped actions _ Hclock
              (fresh_mount_stamped storage Hclock Hnone))
    as [[Hnd _] _].
  fold w in Hnd. eapply NoDup_lookup; [exact Hnd| |].
  - by rewrite list_lookup_fmap, Hi.
  - by rewrite list_lookup_fmap, Hj, Hid.
Qed.

(** X19. With a clock that never returns the same reading twice, and no
    sessions stored at mount, the messages of a session always have
    pairwise different ids, whatever the actions. *)
Theorem message_ids_differ storage actions :
  neverRepeats now →
  storage !! SESSIONS_STORAGE_KEY = None →
  let w := exec (actAll now actions)
             (exec (initialDataLoad now JSON_parse JSON_parse_sessions)
                (initialWorld storage)) in
  ∀ s i j m m',
    s ∈ sessions w →
    ChatSession.messages s !! i = Some m → ChatSession.messages s !! j = Some m' →
    Message.id m = Message.id m' → i = j.
Proof.
  intros Hclock Hnone w s i j m m' Hs Hi Hj Hid.
  destruct (actAll_stamped actions _ Hclock
              (fresh_mount_stamped storage Hclock Hnone))
    as [_ Hmsgs].
  fold w in Hmsgs. rewrite Forall_forall in Hmsgs.
  destruct (Hmsgs s Hs) as [Hnd _].
  eapply NoDup_lookup; [exact Hnd| |].
  - by rewrite list_lookup_fmap, Hi.
  - by rewrite list_lookup_fmap, Hj, Hid.
Qed.

Lemma appended_ids cid text sender orig l l' :
  Forall2 (appended cid text sender orig) l l' →
  ChatSession.id <$> l' = ChatSession.id <$> l.
Proof.
  induction 1 as [|s s' l l' Hs _ IH]; [done|]. cbn.
  by rewrite (appended_id _ _ _ _ _ _ Hs), IH.
Qed.

Lemma addMessage_shape cid text sender orig w :
  shape (exec (addMessageToCurrentSession now cid text sender orig) w) = shape w.
Proof.
  destruct (addMessage_spec now cid text sender orig w) as (next & k & HM & Hnext).
  unfold exec. rewrite HM. unfold shape. cbn.
  by rewrite (appended_ids _ _ _ _ _ _ Hnext).
Qed.

(** X20. A send neither creates nor removes a session and does not change
    which one is current. From the call to the [await], and from the moment
    it resumes to its end, the collection has the same ids in the same
    order, and the current id, the settings, the storage and the two dialog
    flags are the same, whether the translation arrives or fails. *)
Theorem send_keeps_the_shape translateText meanwhile text w :
  trim text ≠ [] →
  shape (atAwait now text w) = shape w
  ∧ shape (exec (handleSendMessage now translateText meanwhile text) w)
    = shape (exec meanwhile (atAwait now text w)).
Proof.
  intros Hne. split.
  - rewrite atAwait_run.
    exact (addMessage_shape (currentSessionId w) text USER None w).
  - unfold exec at 1. destruct (translateText text) as [translated|e] eqn:Hr.
    + rewrite (handleSend_resolved now _ _ _ _ _ Hne Hr). cbn [snd].
      etrans; [|apply (addMessage_shape (currentSessionId w) translated AI
                         (Some text))].
      by destruct (truthy _).
    + rewrite (handleSend_rejected now _ _ _ _ _ Hne Hr). cbn [snd].
      etrans; [apply (addMessage_shape (currentSessionId w) fallbackText AI None)|].
      done.
Qed.

End Further.

(** * Further runs on the sample inputs *)

(** A send of two spaces. *)
Lemma blank_send_does_nothing_witness :
  handleSendMessage tickingClock (λ _, Resolved (lit "salam")) (mret tt) (lit "  ")
    twoSessions
  = (Normal tt, twoSessions).
Proof.
  apply blank_send_does_nothing.
  repeat constructor.
Defined.

(** A translation in Urdu script, with the voice on by default. *)
Lemma send_speaks_translation_witness :
  spoken (exec (handleSendMessage tickingClock (λ _, Resolved urduReply) (mret tt)
                  (lit "hi")) twoSessions)
  = spoken (exec (mret tt) (atAwait tickingClock (lit "hi") twoSessions))
    ++ [(urduReply, lit "ur-PK")].
Proof.
  assert (trim (lit "hi") ≠ []) as Hne by (vm_compute; discriminate).
  pose proof (send_speaks_translation tickingClock (λ _, Resolved urduReply)
                (mret tt) (lit "hi") urduReply twoSessions Hne eq_refl)
    as (_ & Hon).
  assert (truthy (settings twoSessions !! lit "voiceEnabled") = true) as Hvoice
    by (vm_compute; reflexivity).
  destruct (Hon Hvoice) as (Hurdu & _). apply Hurdu.
  exists 0x0633%N. split; [apply list_elem_of_here|lia].
Defined.

(** A failed send, with the voice on. *)
Lemma failed_send_is_silent_witness :
  spoken (exec (handleSendMessage tickingClock (λ _, Rejected (lit "offline"))
                  (mret tt) (lit "hi")) twoSessions)
  = spoken (exec (mret tt) (atAwait tickingClock (lit "hi") twoSessions)).
Proof.
  assert (trim (lit "hi") ≠ []) as Hne by (vm_compute; discriminate).
  exact (failed_send_is_silent tickingClock (λ _, Rejected (lit "offline"))
           (mret tt) (lit "hi") (lit "offline") twoSessions Hne eq_refl).
Defined.

(** A first message of forty code units. *)
Lemma derived_title_is_short_witness :
  ∃ s',
    sessions (exec (addMessageToCurrentSession tickingClock (lit "1700000000000")
                      (lit "0123456789012345678901234567890123456789") USER None)
                twoSessions) !! 0%nat = Some s'
    ∧ (length (ChatSession.title s') ≤ 33)%nat.
Proof.
  destruct (derived_title_is_short tickingClock (lit "1700000000000")
              (lit "0123456789012345678901234567890123456789") USER None
              twoSessions 0 sampleSession eq_refl)
    as (s' & H1 & _ & H2).
  exists s'. split; [exact H1|].
  destruct H2 as [H2 _]; [reflexivity..|exact H2].
Defined.

(** A send in the current one of two sessions. *)
Lemma send_shows_in_chat_witness :
  ∃ user ai,
    messages (exec (handleSendMessage tickingClock (λ _, Resolved (lit "salam"))
                      (mret tt) (lit "hi")) twoSessions)
    = messages twoSessions ++ [user; ai]
    ∧ Message.text user = lit "hi".
Proof.
  assert (trim (lit "hi") ≠ []) as Hne by (vm_compute; discriminate).
  pose proof (send_shows_in_chat tickingClock (λ _, Resolved (lit "salam"))
                (lit "hi") twoSessions Hne) as (_ & Hshown).
  assert (is_Some (currentSession twoSessions)) as Hcur
    by (exists sampleSession; vm_compute; reflexivity).
  destruct (Hshown Hcur) as (user & ai & H1 & H2 & _).
  exists user, ai. split; [exact H1|exact H2].
Defined.

(** Selecting the older of two sessions. *)
Lemma select_shows_session_witness :
  currentSessionId (exec (onSelectSession (lit "1600000000000")) twoSessions)
  = lit "1600000000000"
  ∧ sessions (exec (onSelectSession (lit "1600000000000")) twoSessions)
    = sessions twoSessions.
Proof.
  assert (∃ s, s ∈ sessions twoSessions ∧ ChatSession.id s = lit "1600000000000")
    as Hlisted.
  { exists olderSession. split; [|reflexivity].
    apply list_elem_of_further, list_elem_of_here. }
  pose proof (select_shows_session (lit "1600000000000") twoSessions Hlisted)
    as (H1 & _ & H2 & _).
  split; [exact H1|exact H2].
Defined.

(** A deletion that the user declines. *)
Lemma delete_unknown_or_declined_witness :
  deleteSession tickingClock (λ _, false) (lit "1700000000000") twoSessions
  = (Normal tt, twoSessions).
Proof.
  apply delete_unknown_or_declined. left. reflexivity.
Defined.

(** Two sessions stored and loaded again. *)
Lemma sessions_survive_reload_witness :
  sessions (exec (loadSessions tickingClock sampleParseSessions)
              (initialWorld (localStorage
                 (exec (persistSessions sampleStringifySessions) twoSessions))))
  = sessions twoSessions.
Proof.
  assert (sampleStringifySessions (sessions twoSessions) ≠ []) as Hne
    by (vm_compute; discriminate).
  pose proof (sessions_survive_reload tickingClock sampleParseSessions
                sampleStringifySessions twoSessions sampleSession [olderSession]
                eq_refl Hne eq_refl) as (_ & _ & H & _).
  exact H.
Defined.

(** Settings that hold one field, stored and loaded again. *)
Lemma settings_survive_reload_witness :
  settings (exec (loadSettings sampleParse)
              (initialWorld (localStorage
                 (exec (persistSettings sampleStringifySettings) darkOnly))))
    !! lit "darkMode" = Some (JBool true).
Proof.
  assert (sampleStringifySettings (settings darkOnly) ≠ []) as Hne
    by (vm_compute; discriminate).
  pose proof (settings_survive_reload sampleParse sampleStringifySettings darkOnly
                (JObj [(lit "darkMode", JBool true)]) Hne eq_refl eq_refl)
    as (_ & _ & H & _).
  etrans; [apply H|]. vm_compute. reflexivity.
Defined.

(** A new chat, a selection of the first session and an append to it. *)
Lemma current_session_always_exists_witness :
  sessions (exec (actAll tickingClock
                    [NewChat; Select (lit "1700000000000");
                     Append (lit "1700000000000") (lit "hi") USER None])
              (exec (initialDataLoad tickingClock sampleParse noSessions)
                 (initialWorld ∅))) ≠ [].
Proof.
  assert (allSelectable tickingClock
            [NewChat; Select (lit "1700000000000");
             Append (lit "1700000000000") (lit "hi") USER None]
            (exec (initialDataLoad tickingClock sampleParse noSessions)
               (initialWorld ∅))) as Hsel.
  { cbn [allSelectable selectable]. split; [exact I|]. split; [|split; exact I].
    exists sampleSession. split; [|vm_compute; reflexivity].
    apply (list_elem_of_lookup_2 _ 1%nat). vm_compute. reflexivity. }
  pose proof (current_session_always_exists tickingClock sampleParse noSessions ∅ _
                Hsel) as (H & _).
  exact H.
Defined.

(** A mount on two stored sessions, then a new chat: the stored session
    that holds no message. *)
Lemma empty_sessions_are_untitled_witness :
  sessions (exec (actAll tickingClock [NewChat])
              (exec (initialDataLoad tickingClock sampleParse sampleParseSessions)
                 (initialWorld {[ SESSIONS_STORAGE_KEY := lit "[sessions]" ]})))
    !! 1%nat = Some sampleSession
  ∧ ChatSession.title sampleSession = lit "New Conversation".
Proof.
  assert (sessions (exec (actAll tickingClock [NewChat])
                      (exec (initialDataLoad tickingClock sampleParse
                               sampleParseSessions)
                         (initialWorld {[ SESSIONS_STORAGE_KEY := lit "[sessions]" ]})))
            !! 1%nat = Some sampleSession) as Hin by (vm_compute; reflexivity).
  split; [exact Hin|].
  apply (empty_sessions_are_untitled tickingClock sampleParse sampleParseSessions
           {[ SESSIONS_STORAGE_KEY := lit "[sessions]" ]} [NewChat]).
  - intros saved l _ [= <-]. constructor; [intros _; reflexivity|].
    constructor; [|constructor]. intros Hnone. vm_compute in Hnone. discriminate.
  - exact (list_elem_of_lookup_2 _ _ _ Hin).
  - reflexivity.
Defined.

(** Two new chats on a fresh mount: three sessions, three ids. *)
Lemma session_ids_differ_witness :
  NoDup (ChatSession.id <$>
           sessions (exec (actAll tickingClock [NewChat; NewChat])
                       (exec (initialDataLoad tickingClock sampleParse noSessions)
                          (initialWorld ∅)))).
Proof.
  apply NoDup_alt. intros i j x Hi Hj.
  rewrite list_lookup_fmap in Hi, Hj.
  destruct (sessions _ !! i) as [s|] eqn:Hs; [|discriminate].
  destruct (sessions _ !! j) as [t|] eqn:Ht; [|discriminate].
  injection Hi as Hi. injection Hj as Hj.
  apply (session_ids_differ tickingClock sampleParse noSessions ∅
           [NewChat; NewChat]) with s t.
  - intros a b H. unfold tickingClock in H. lia.
  - reflexivity.
  - exact Hs.
  - exact Ht.
  - congruence.
Defined.

(** The two appends of a send on a fresh mount. *)
Lemma message_ids_differ_witness :
  NoDup (Message.id <$>
           from_option ChatSession.messages []
             (sessions (exec (actAll tickingClock
                                [Append (lit "1700000000000") (lit "hi") USER None;
                                 Append (lit "1700000000000") (lit "salam") AI
                                   (Some (lit "hi"))])
                          (exec (initialDataLoad tickingClock sampleParse noSessions)
                             (initialWorld ∅))) !! 0%nat)).
Proof.
  destruct (sessions _ !! 0%nat) as [s|] eqn:Hs; [|constructor]. cbn.
  apply NoDup_alt. intros i j x Hi Hj.
  rewrite list_lookup_fmap in Hi, Hj.
  destruct (ChatSession.messages s !! i) as [m|] eqn:Hm; [|discriminate].
  destruct (ChatSession.messages s !! j) as [m'|] eqn:Hm'; [|discriminate].
  injection Hi as Hi. injection Hj as Hj.
  apply (message_ids_differ tickingClock sampleParse noSessions ∅
           [Append (lit "1700000000000") (lit "hi") USER None;
            Append (lit "1700000000000") (lit "salam") AI (Some (lit "hi"))])
    with s m m'.
  - intros a b H. unfold tickingClock in H. lia.
  - reflexivity.
  - exact (list_elem_of_lookup_2 _ _ _ Hs).
  - exact Hm.
  - exact Hm'.
  - congruence.
Defined.

(** A send during which the conversation is deleted. *)
Lemma send_keeps_the_shape_witness :
  shape (exec (handleSendMessage tickingClock (λ _, Resolved (lit "salam"))
                 (deleteSession tickingClock (λ _, true) (lit "1700000000000"))
                 (lit "hi")) twoSessions)
  = shape (exec (deleteSession tickingClock (λ _, true) (lit "1700000000000"))
             (atAwait tickingClock (lit "hi") twoSessions)).
Proof.
  assert (trim (lit "hi") ≠ []) as Hne by (vm_compute; discriminate).
  exact (proj2 (send_keeps_the_shape tickingClock (λ _, Resolved (lit "salam"))
                  (deleteSession tickingClock (λ _, true) (lit "1700000000000"))
                  (lit "hi") twoSessions Hne)).
Defined.

(** The voice setting after a mount on a stored object that holds
    [darkMode] only and a change that switches the animations off. *)
Lemma settings_stay_populated_witness :
  is_Some
    (settings
       (exec (loadSettings sampleParse;;
              updateSettingsAll [ {[ lit "animationsEnabled" := JBool false ]} ])
          (initialWorld {[ SETTINGS_STORAGE_KEY := darkModeBlob ]}))
     !! lit "voiceEnabled").
Proof.
  apply (settings_stay_populated sampleParse
           {[ SETTINGS_STORAGE_KEY := darkModeBlob ]}
           [ {[ lit "animationsEnabled" := JBool false ]} ]).
  exists (JBool true). vm_compute. reflexivity.
Defined.
